(** * FYP Analysis System: domain resolution and similarity reporting

    A shallow embedding of [FYPAnalyzer] (main.py): the text helpers, the
    domain taxonomy, [categorize_by_domain], [get_project_domains] and
    [calculate_similarity], followed by the properties of the specification
    that concern them.

    Modelling conventions.
    - A Python [str] is a [string] of its code points; the character type
      has the 256 code points below U+0100 (ASCII and Latin-1), and
      [str.lower], [str.isspace] and the classes [\s] and [\w] are those
      of Python on these code points.  Text with a code point from U+0100
      on is outside the model.
    - A Python [dict] that is only read is an association list in insertion
      order (iteration order matters); [confidence_scores], which is built
      by key assignment, is a [gmap].
    - A float64 is the rational number it denotes ([Q]) and comparisons
      are exact.  [round(x, 3)] on a numpy float is computed in double
      precision as numpy does it: the product with 1000, the nearest
      integer (ties to even) and the quotient by 1000, the product and the
      quotient each rounded to the nearest double.  Between each of the
      literals 0.3, 0.5 and 0.7 and the double it denotes lies no double,
      so comparing a double with the exact value of the literal gives the
      answer the code gets.  Cosine values that are infinite or NaN are
      outside the model.
    - What the external libraries compute is taken as an input: the answer
      of the Gemini model (an object of the shape the prompt asks for in
      [categorize_row], an arbitrary parsed value in [matched_domains_of]),
      the cosine-similarity matrix of scikit-learn and the row order chosen
      by pandas' [sort_values]. *)

From Stdlib Require Import ZArith QArith Qround Qabs Qpower Lqa.
From Stdlib Require Import String Ascii List Permutation Sorted Lia.
From stdpp Require Import base option list gmap sets strings sorting.
Import ListNotations.

Local Open Scope string_scope.
Local Open Scope list_scope.
Local Open Scope Z_scope.

(** ** Text helpers (Python [str] methods) *)

Module Text.

(** [c.lower()] on one character: the letters A to Z and the capital
    letters of Latin-1 (U+00C0 to U+00DE, the multiplication sign U+00D7
    apart) move 32 places up; every other character below U+0100 is its own
    lower case. *)
Definition lower_ascii (c : ascii) : ascii :=
  let n := nat_of_ascii c in
  if (((65 <=? n)%nat && (n <=? 90)%nat) ||
      ((192 <=? n)%nat && (n <=? 222)%nat && negb (n =? 215)%nat))%bool
  then ascii_of_nat (n + 32) else c.

(** [s.lower()] *)
Fixpoint lower (s : string) : string :=
  match s with
  | EmptyString => EmptyString
  | String c s' => String (lower_ascii c) (lower s')
  end.

(** The characters [str.strip], [str.split] and the regular expression [\s]
    treat as white space, which are those of [str.isspace]: below U+0100
    they are U+0009 to U+000D, U+001C to U+0020, the next-line character
    U+0085 and the no-break space U+00A0. *)
Definition is_space (c : ascii) : bool :=
  let n := nat_of_ascii c in
  (((9 <=? n)%nat && (n <=? 13)%nat) || ((28 <=? n)%nat && (n <=? 32)%nat) ||
   (n =? 133)%nat || (n =? 160)%nat)%bool.

Fixpoint lstrip (s : string) : string :=
  match s with
  | EmptyString => EmptyString
  | String c s' => if is_space c then lstrip s' else s
  end.

Fixpoint rstrip (s : string) : string :=
  match s with
  | EmptyString => EmptyString
  | String c s' =>
      match rstrip s' with
      | EmptyString => if is_space c then EmptyString else String c EmptyString
      | r => String c r
      end
  end.

(** [s.strip()] *)
Definition strip (s : string) : string := rstrip (lstrip s).

(** Truth value of a string: non-empty. *)
Definition truthy (s : string) : bool :=
  match s with EmptyString => false | _ => true end.

(** [re.sub(r'\s+', ' ', s)]: every maximal run of white space becomes one
    space.  [in_run] tells whether the previous character was white space. *)
Fixpoint collapse_ws (in_run : bool) (s : string) : string :=
  match s with
  | EmptyString => EmptyString
  | String c s' =>
      if is_space c
      then (if in_run then collapse_ws true s' else String " " (collapse_ws true s'))
      else String c (collapse_ws false s')
  end.

(** [sub in s] *)
Fixpoint contains (sub s : string) : bool :=
  (String.prefix sub s ||
   match s with
   | EmptyString => false
   | String _ s' => contains sub s'
   end)%bool.

(** [s.count(sub)]: the scan of CPython, left to right; after a match at a
    position the search resumes behind the matched text, so [skip]
    characters are passed over without being tested.  The empty [sub]
    matches at every position and at the end. *)
Fixpoint count_from (sub : string) (skip : nat) (s : string) {struct s} : Z :=
  match s with
  | EmptyString =>
      match skip with
      | O => if String.prefix sub EmptyString then 1 else 0
      | S _ => 0
      end
  | String _ s' =>
      match skip with
      | S k => count_from sub k s'
      | O =>
          if String.prefix sub s
          then 1 + count_from sub (String.length sub - 1) s'
          else count_from sub 0 s'
      end
  end.

Definition count (s sub : string) : Z := count_from sub 0 s.

(** The number of positions of [s] at which [sub] occurs, overlapping
    occurrences included: the reading of "occurrences" that counts
    overlaps. *)
Fixpoint occurrences (sub s : string) : Z :=
  (if String.prefix sub s then 1 else 0) +
  match s with
  | EmptyString => 0
  | String _ s' => occurrences sub s'
  end.

End Text.

(** ** The taxonomy: [self.domain_keywords], in declaration order *)

Definition taxonomy := list (string * list string).

Definition builtin_domain_keywords : taxonomy :=
  [ ("Artificial Intelligence & Machine Learning",
      ["ai"; "artificial intelligence"; "machine learning"; "ml"; "deep learning";
       "neural network"; "nlp"; "natural language processing"; "computer vision";
       "recommendation system"; "classification"; "prediction"; "clustering";
       "generative ai"; "llm"; "large language model"]);
    ("Web Development",
      ["web"; "website"; "web application"; "frontend"; "backend"; "html"; "css";
       "javascript"; "react"; "angular"; "vue"; "nodejs"; "django"; "flask";
       "api"; "rest"; "graphql"; "responsive"]);
    ("Mobile Development",
      ["mobile"; "android"; "ios"; "flutter"; "react native"; "kotlin"; "swift";
       "mobile app"; "smartphone"; "tablet"; "cross-platform"]);
    ("Cybersecurity",
      ["security"; "cybersecurity"; "encryption"; "authentication"; "penetration testing";
       "vulnerability"; "firewall"; "intrusion detection"; "malware"; "forensics";
       "risk assessment"; "compliance"; "iso 27001"; "gdpr"]);
    ("Data Science & Analytics",
      ["data science"; "analytics"; "big data"; "data mining"; "statistics";
       "visualization"; "dashboard"; "business intelligence"; "etl"; "data warehouse";
       "pandas"; "numpy"; "matplotlib"; "tableau"; "power bi"]);
    ("Internet of Things (IoT)",
      ["iot"; "internet of things"; "sensor"; "embedded"; "arduino"; "raspberry pi";
       "microcontroller"; "smart home"; "automation"; "monitoring"; "rfid"; "bluetooth"]);
    ("Blockchain & Cryptocurrency",
      ["blockchain"; "cryptocurrency"; "bitcoin"; "ethereum"; "smart contract";
       "decentralized"; "crypto"; "nft"; "defi"; "web3"]);
    ("Game Development",
      ["game"; "gaming"; "unity"; "unreal"; "game development"; "vr"; "ar";
       "virtual reality"; "augmented reality"; "3d"; "simulation"]);
    ("Healthcare & Medical",
      ["health"; "healthcare"; "medical"; "patient"; "diagnosis"; "telemedicine";
       "electronic health record"; "ehr"; "medical imaging"; "drug"; "pharmacy"]);
    ("E-commerce & Business",
      ["ecommerce"; "e-commerce"; "online shop"; "marketplace"; "inventory";
       "supply chain"; "crm"; "erp"; "business process"; "payment"]);
    ("Education & E-learning",
      ["education"; "learning"; "e-learning"; "lms"; "student"; "teacher";
       "course"; "quiz"; "examination"; "classroom"; "school"; "university"]);
    ("Social Media & Communication",
      ["social media"; "chat"; "messaging"; "communication"; "social network";
       "forum"; "blog"; "community"; "collaboration"]);
    ("Cloud Computing",
      ["cloud"; "aws"; "azure"; "google cloud"; "docker"; "kubernetes";
       "microservices"; "serverless"; "saas"; "paas"; "iaas"]);
    ("Computer Vision",
      ["computer vision"; "image processing"; "object detection"; "face recognition";
       "ocr"; "image classification"; "video analysis"; "opencv"]);
    ("Sports & Fitness",
      ["sports"; "fitness"; "exercise"; "training"; "coaching"; "athlete";
       "performance"; "cricket"; "football"; "basketball"; "workout"]) ].

(** ** Data *)

(** One entry of the "domains" array of an answer that has the shape the
    prompt asks for, read with [domain_info.get('name', '')],
    [.get('confidence', 0)] and [.get('reasoning', '')]: an absent key is
    its default.  The name and the reasoning are strings and the confidence
    is an integer. *)
Record domain_info := {
  name : string;
  confidence : Z;
  reasoning : string
}.

(** A parsed answer of that shape, read with [.get('domains', [])] and
    [.get('primary_domain', '')].  The code does not check the shape of
    what [json.loads] returns; [matched_domains_of], further down, runs the
    same block on an arbitrary parsed value, where it can raise. *)
Record gemini_result := {
  domains : list domain_info;
  primary_domain : string
}.

(** [categorize_with_gemini] for a configured model, as a function of title
    and scope.  [None] is every answer that is false in [if gemini_result:]:
    [None] itself (API error, text that is not JSON) and the empty object. *)
Definition gemini_oracle := string -> string -> option gemini_result.

(** The supporting evidence of a [confidence_scores] entry: the 'reasoning'
    text of the AI path or the 'keywords' list of the other paths. *)
Inductive evidence :=
| Reasoning (text : string)
| Keywords (kws : list string).

Record conf_entry := {
  score : Z;
  support : evidence;
  method : string
}.

(** A row of the frame that [load_data] produces, for a sheet that has the
    title, scope and short-title columns.  [existing_domain] is the
    'primary_domain' cell: [None] when the column is absent or the cell is
    NaN. *)
Record row := {
  short_title : string;
  project_title : string;
  project_scope : string;
  cleaned_title : string;
  cleaned_scope : string;
  existing_domain : option string
}.

(** One dictionary appended to [domain_results]. *)
Record domain_result := {
  project_id : string;
  dr_project_title : string;
  dr_domains : list string;
  confidence_scores : gmap string conf_entry;
  dr_primary_domain : string;
  categorization_method : string
}.

Record FYPAnalyzer := {
  gemini_api_key : option string;
  similarity_threshold : Q;
  gemini_model : option gemini_oracle;
  domain_keywords : taxonomy
}.

(** ** Construction: [FYPAnalyzer.__init__] *)

(** The google-generativeai package as the constructor sees it: whether the
    import succeeded, and [genai.configure] followed by
    [genai.GenerativeModel('gemini-pro')], which is [None] when either
    raises (the constructor catches the exception). *)
Record genai_env := {
  GEMINI_AVAILABLE : bool;
  make_model : string -> option gemini_oracle
}.

Definition init (key : option string) (env : genai_env) : FYPAnalyzer :=
  {| gemini_api_key := key;
     similarity_threshold := 3 # 10;
     gemini_model :=
       match key with
       | Some k =>
           if (Text.truthy k && GEMINI_AVAILABLE env)%bool then make_model env k else None
       | None => None
       end;
     domain_keywords := builtin_domain_keywords |}.

(** [analyzer.similarity_threshold = t], the assignment demo.py and
    web_app.py perform after construction. *)
Definition set_similarity_threshold (t : Q) (a : FYPAnalyzer) : FYPAnalyzer :=
  {| gemini_api_key := gemini_api_key a;
     similarity_threshold := t;
     gemini_model := gemini_model a;
     domain_keywords := domain_keywords a |}.

(** ** [clean_text] and the rows of [load_data] *)

(** [None] is a cell that is NaN or not a string. *)
Definition clean_text (text : option string) : string :=
  match text with
  | None => EmptyString
  | Some t => Text.lower (Text.strip (Text.collapse_ws false t))
  end.

(** The row [load_data] makes of one sheet line: [fillna('')] on title and
    scope, then the cleaned columns. *)
Definition load_row (short : string) (title scope existing : option string) : row :=
  let t := default EmptyString title in
  let s := default EmptyString scope in
  {| short_title := short;
     project_title := t;
     project_scope := s;
     cleaned_title := clean_text (Some t);
     cleaned_scope := clean_text (Some s);
     existing_domain := existing |}.

(** ** [categorize_by_domain] *)

(** The two accumulators of the loop body: [matched_domains] and
    [confidence_scores]. *)
Definition resolution : Type := list string * gmap string conf_entry.

Definition no_domains : resolution := ([], ∅).

Definition ai_entry (info : domain_info) : conf_entry :=
  {| score := confidence info;
     support := Reasoning (reasoning info);
     method := "gemini_ai" |}.

Definition primary_entry : conf_entry :=
  {| score := 8;
     support := Reasoning "Primary domain identified by Gemini AI";
     method := "gemini_ai" |}.

Definition keyword_entry (sc : Z) (matched_keywords : list string) : conf_entry :=
  {| score := sc; support := Keywords matched_keywords; method := "keyword_matching" |}.

Definition existing_entry : conf_entry :=
  {| score := 1; support := Keywords ["manual_categorization"]; method := "existing_data" |}.

Definition default_entry : conf_entry :=
  {| score := 1; support := Keywords []; method := "default" |}.

(** [if domain_name and confidence >= 6] *)
Definition retained (info : domain_info) : bool :=
  (Text.truthy (name info) && (6 <=? confidence info))%bool.

(** [for domain_info in gemini_result.get('domains', [])] *)
Definition gemini_domains (g : gemini_result) (st : resolution) : resolution :=
  fold_left
    (fun (acc : resolution) info =>
       if retained info
       then (acc.1 ++ [name info], <[name info := ai_entry info]> acc.2)
       else acc)
    (domains g) st.

(** [if primary_domain and primary_domain not in matched_domains] *)
Definition gemini_primary (g : gemini_result) (st : resolution) : resolution :=
  let p := primary_domain g in
  if (Text.truthy p && negb (bool_decide (p ∈ st.1)))%bool
  then (p :: st.1, <[p := primary_entry]> st.2)
  else st.

Definition ai_step (g : gemini_result) : resolution :=
  gemini_primary g (gemini_domains g no_domains).

(** The inner loop [for keyword in keywords]: [score] and
    [matched_keywords]. *)
Definition keyword_tally (combined_text : string) (keywords : list string)
  : Z * list string :=
  fold_left
    (fun (acc : Z * list string) keyword =>
       let c := Text.count combined_text (Text.lower keyword) in
       if 0 <? c then (acc.1 + c, acc.2 ++ [keyword]) else acc)
    keywords (0, []).

(** The outer loop [for domain, keywords in self.domain_keywords.items()] *)
Definition keyword_domains (tax : taxonomy) (combined_text : string)
    (st : resolution) : resolution :=
  fold_left
    (fun (acc : resolution) (dk : string * list string) =>
       let t := keyword_tally combined_text dk.2 in
       if 0 <? t.1
       then (acc.1 ++ [dk.1], <[dk.1 := keyword_entry t.1 t.2]> acc.2)
       else acc)
    tax st.

(** [if not matched_domains and 'primary_domain' in row] *)
Definition existing_label (r : row) (st : resolution) : resolution :=
  match st.1, existing_domain r with
  | [], Some e =>
      if Text.truthy (Text.strip e)
      then (st.1 ++ [Text.strip e], <[Text.strip e := existing_entry]> st.2)
      else st
  | _, _ => st
  end.

Definition combined_lower (title scope : string) : string :=
  Text.lower title +:+ " " +:+ Text.lower scope.

(** [if not matched_domains:] keyword matching, then the existing label. *)
Definition fallback_step (tax : taxonomy) (r : row) (st : resolution) : resolution :=
  match st.1 with
  | [] =>
      existing_label r
        (keyword_domains tax (combined_lower (project_title r) (project_scope r)) st)
  | _ => st
  end.

(** [if not matched_domains: matched_domains = ['Other']] *)
Definition default_step (st : resolution) : resolution :=
  match st.1 with
  | [] => (["Other"], <["Other" := default_entry]> st.2)
  | _ => st
  end.

(** [if self.gemini_model and title and scope: gemini_result = ...] *)
Definition consult_gemini (a : FYPAnalyzer) (r : row) : option gemini_result :=
  match gemini_model a with
  | Some model =>
      if (Text.truthy (project_title r) && Text.truthy (project_scope r))%bool
      then model (project_title r) (project_scope r)
      else None
  | None => None
  end.

Definition resolve (a : FYPAnalyzer) (r : row) : resolution :=
  let st1 :=
    match consult_gemini a r with
    | Some g => ai_step g
    | None => no_domains
    end in
  default_step (fallback_step (domain_keywords a) r st1).

(** The body of [for idx, row in df.iterrows()]. *)
Definition categorize_row (a : FYPAnalyzer) (r : row) : domain_result :=
  let st := resolve a r in
  {| project_id := short_title r;
     dr_project_title := project_title r;
     dr_domains := st.1;
     confidence_scores := st.2;
     dr_primary_domain := hd "Other" st.1;
     categorization_method :=
       match consult_gemini a r with
       | Some _ => "gemini_ai"
       | None => "keyword_matching"
       end |}.

Definition categorize_by_domain (a : FYPAnalyzer) (df : list row) : list domain_result :=
  map (categorize_row a) df.

(** ** [get_project_domains] *)

Definition cleaned_text (r : row) : string :=
  cleaned_title r +:+ " " +:+ cleaned_scope r.

(** The first domain, in declaration order, one of whose keywords occurs in
    the text: the loops return at the first hit. *)
Fixpoint first_keyword_domain (tax : taxonomy) (combined_text : string) : list string :=
  match tax with
  | [] => ["Other"]
  | (domain, keywords) :: rest =>
      if existsb (fun keyword => Text.contains (Text.lower keyword) combined_text) keywords
      then [domain]
      else first_keyword_domain rest combined_text
  end.

Definition get_project_domains (a : FYPAnalyzer) (pid : string) (df : list row)
  : list string :=
  match find (fun r => String.eqb (short_title r) pid) df with
  | None => []
  | Some project_row => first_keyword_domain (domain_keywords a) (cleaned_text project_row)
  end.

(** ** [calculate_similarity] *)

(** [x > y] on floats. *)
Definition Qgtb (x y : Q) : bool := negb (Qle_bool x y).

(** The integer nearest to [x], ties to the even one. *)
Definition round_half_even (x : Q) : Z :=
  let f := Qfloor x in
  match Qcompare (x - inject_Z f) (1 # 2) with
  | Lt => f
  | Gt => f + 1
  | Eq => if Z.even f then f else f + 1
  end.

(** The exponent of the binade of a positive [x]: the [e] with
    [2 ^ e <= x < 2 ^ (e + 1)]. *)
Definition ilog2 (x : Q) : Z :=
  let e := Z.log2 (Qnum x) - Z.log2 (Zpos (Qden x)) in
  if Qle_bool (2 ^ e) x then e else e - 1.

(** The distance between neighbouring doubles at [x]: 53 significant bits,
    and [2 ^ -1074] in the subnormal range. *)
Definition spacing (x : Q) : Q := (2 ^ Z.max (ilog2 (Qabs x) - 52) (-1074))%Q.

(** The double nearest to [x], ties to the even significand: the result of
    a floating-point operation whose exact result is [x]. *)
Definition nearest_double (x : Q) : Q :=
  (inject_Z (round_half_even (x / spacing x)) * spacing x)%Q.

(** [round(x, 3)] for a numpy float [x]: numpy multiplies by [1000.0],
    applies [rint] and divides by [1000.0]. *)
Definition round3 (x : Q) : Q :=
  nearest_double
    (inject_Z (round_half_even (nearest_double (x * inject_Z 1000))) / inject_Z 1000).

(** The [if]/[elif] chain that sets [similarity_level]. *)
Definition level_of (s : Q) : string :=
  if Qgtb s (7 # 10) then "Very High"
  else if Qgtb s (5 # 10) then "High"
  else if Qgtb s (3 # 10) then "Medium"
  else "Low".

(** One dictionary appended to [similar_pairs]; the explanation text is not
    part of the model. *)
Record similar_pair := {
  project_1_id : string;
  project_2_id : string;
  similarity_score : Q;
  similarity_level : string;
  overlapping_domains : gset string
}.

(** [if combined_text.strip():] *)
Definition usable (r : row) : bool := Text.truthy (Text.strip (cleaned_text r)).

(** The parallel lists [texts] and [project_ids]. *)
Definition texts (df : list row) : list string :=
  map cleaned_text (List.filter usable df).

Definition project_ids (df : list row) : list string :=
  map short_title (List.filter usable df).

(** [for i in range(n): for j in range(i + 1, n)], in the order visited. *)
Definition index_pairs (n : nat) : list (nat * nat) :=
  flat_map (fun i => map (fun j => (i, j)) (seq (S i) (n - S i))) (seq 0 n).

(** [if similarity_score > self.similarity_threshold] *)
Definition above_threshold (a : FYPAnalyzer) (sim : nat -> nat -> Q)
    (ij : nat * nat) : bool :=
  Qgtb (sim ij.1 ij.2) (similarity_threshold a).

Definition make_pair (a : FYPAnalyzer) (df : list row) (sim : nat -> nat -> Q)
    (ij : nat * nat) : similar_pair :=
  let ids := project_ids df in
  let similarity := sim ij.1 ij.2 in
  let proj1_domains := get_project_domains a (nth ij.1 ids "") df in
  let proj2_domains := get_project_domains a (nth ij.2 ids "") df in
  {| project_1_id := nth ij.1 ids "";
     project_2_id := nth ij.2 ids "";
     similarity_score := round3 similarity;
     similarity_level := level_of similarity;
     overlapping_domains := list_to_set proj1_domains ∩ list_to_set proj2_domains |}.

(** The list [similar_pairs] when the loops end: discovery order. *)
Definition similar_pairs (a : FYPAnalyzer) (sim : nat -> nat -> Q) (df : list row)
  : list similar_pair :=
  map (make_pair a df sim)
      (List.filter (above_threshold a sim) (index_pairs (length (project_ids df)))).

(** The TF-IDF vectorizer followed by [cosine_similarity], on the list of
    texts: the matrix, or [None] when scikit-learn raises (the method
    catches the exception). *)
Definition cosine_oracle := list string -> option (nat -> nat -> Q).

(** [results_df.sort_values('similarity_score', ascending=False)] as a
    function on the list of rows. *)
Definition row_sorter := list similar_pair -> list similar_pair.

(** The rows of the returned frame; the empty frame is [[]]. *)
Definition calculate_similarity (a : FYPAnalyzer) (cosine : cosine_oracle)
    (sort_values : row_sorter) (df : list row) : list similar_pair :=
  if (length (texts df) <? 2)%nat then []
  else
    match cosine (texts df) with
    | None => []
    | Some sim =>
        match similar_pairs a sim df with
        | [] => []
        | found => sort_values found
        end
    end.

(** What [sort_values] promises: the same rows, in non-increasing order of
    the key. *)
Definition score_ge (p q : similar_pair) : Prop :=
  (similarity_score q <= similarity_score p)%Q.

Definition sorts_descending (sort_values : row_sorter) : Prop :=
  forall l, Permutation (sort_values l) l /\ StronglySorted score_ge (sort_values l).

(** A row order that meets this contract, by insertion; rows of equal score
    stay in their original order. *)
Fixpoint insert_row (before : similar_pair -> similar_pair -> bool)
    (p : similar_pair) (l : list similar_pair) : list similar_pair :=
  match l with
  | [] => [p]
  | q :: l' => if before p q then p :: l else q :: insert_row before p l'
  end.

Definition sort_rows (before : similar_pair -> similar_pair -> bool) : row_sorter :=
  fun l => foldr (insert_row before) [] l.

Definition sort_keeping_ties : row_sorter :=
  sort_rows (fun p q => Qle_bool (similarity_score q) (similarity_score p)).

(** ** Notions the properties are stated with *)

(** The steps of the resolution pipeline, and the tag the code writes in
    the 'method' field of the entries each step makes. *)
Inductive step := AIStep | KeywordStep | ExistingLabelStep | DefaultStep.

Definition step_tag (s : step) : string :=
  match s with
  | AIStep => "gemini_ai"
  | KeywordStep => "keyword_matching"
  | ExistingLabelStep => "existing_data"
  | DefaultStep => "default"
  end.

(** The names the AI answer contributes through its 'domains' array. *)
Definition retained_names (g : gemini_result) : list string :=
  map name (List.filter retained (domains g)).

(** The domains of the keyword step run on its own. *)
Definition keyword_result (a : FYPAnalyzer) (r : row) : resolution :=
  keyword_domains (domain_keywords a)
    (combined_lower (project_title r) (project_scope r)) no_domains.

(** The step that produces the matched domains of a row: the first one, in
    pipeline order, that yields a domain. *)
Definition producing_step (a : FYPAnalyzer) (r : row) : step :=
  match consult_gemini a r with
  | Some g =>
      match (ai_step g).1 with
      | _ :: _ => AIStep
      | [] =>
          match (keyword_result a r).1, existing_domain r with
          | _ :: _, _ => KeywordStep
          | [], Some e => if Text.truthy (Text.strip e) then ExistingLabelStep else DefaultStep
          | [], None => DefaultStep
          end
      end
  | None =>
      match (keyword_result a r).1, existing_domain r with
      | _ :: _, _ => KeywordStep
      | [], Some e => if Text.truthy (Text.strip e) then ExistingLabelStep else DefaultStep
      | [], None => DefaultStep
      end
  end.

(** What a step yields when it is the one that produces the domains. *)
Definition step_result (a : FYPAnalyzer) (r : row) (s : step) : resolution :=
  match s with
  | AIStep =>
      match consult_gemini a r with
      | Some g => ai_step g
      | None => no_domains
      end
  | KeywordStep => keyword_result a r
  | ExistingLabelStep =>
      match existing_domain r with
      | Some e => ([Text.strip e], {[Text.strip e := existing_entry]})
      | None => no_domains
      end
  | DefaultStep => (["Other"], {["Other" := default_entry]})
  end.

(** Every key of [confidence_scores] is a matched domain and conversely. *)
Definition keyed (st : resolution) : Prop :=
  dom st.2 =@{gset string} list_to_set st.1.

(** Every entry of [confidence_scores] carries the method tag [m]. *)
Definition tagged (m : string) (st : resolution) : Prop :=
  forall d e, st.2 !! d = Some e -> method e = m.

(** The sum over the keywords of a domain of what [str.count] returns. *)
Definition domain_score (combined_text : string) (keywords : list string) : Z :=
  foldr Z.add 0 (map (fun k => Text.count combined_text (Text.lower k)) keywords).

(** [if score > 0] for one item of the taxonomy. *)
Definition scoring (combined_text : string) (dk : string * list string) : bool :=
  0 <? domain_score combined_text dk.2.

(** The keywords with a nonzero count. *)
Definition evidence_keywords (combined_text : string) (keywords : list string)
  : list string :=
  List.filter (fun k => 0 <? Text.count combined_text (Text.lower k)) keywords.

(** The score of a domain when overlapping occurrences are counted too. *)
Definition overlapping_score (combined_text : string) (keywords : list string) : Z :=
  foldr Z.add 0 (map (fun k => Text.occurrences (Text.lower k) combined_text) keywords).

(** [self.domain_keywords[d]], the empty list for an undeclared domain. *)
Definition keywords_of (tax : taxonomy) (d : string) : list string :=
  match find (fun dk : string * list string => bool_decide (dk.1 = d)) tax with
  | Some dk => dk.2
  | None => []
  end.

(** A text without any character other than white space. *)
Fixpoint blank (s : string) : bool :=
  match s with
  | EmptyString => true
  | String c s' => (Text.is_space c && blank s')%bool
  end.

(** A record with some normalized text: its cleaned title or its cleaned
    scope has a character that is not white space. *)
Definition has_text (r : row) : bool :=
  negb (blank (cleaned_title r) && blank (cleaned_scope r)).

(** A reported row comes from an index pair [i < j < n] whose unrounded
    similarity exceeds the threshold; its score is that similarity rounded
    and its level is read off the unrounded similarity. *)
Definition reported_from (a : FYPAnalyzer) (sim : nat -> nat -> Q) (n : nat)
    (p : similar_pair) : Prop :=
  exists i j,
    (i < j < n)%nat /\
    (similarity_threshold a < sim i j)%Q /\
    similarity_score p = round3 (sim i j) /\
    similarity_level p = level_of (sim i j).

(** The overlap the specification asks for: the intersection of the matched
    domains the resolution pipeline gives the two records. *)
Definition resolved_overlap (a : FYPAnalyzer) (r1 r2 : row) : gset string :=
  list_to_set (dr_domains (categorize_row a r1)) ∩
  list_to_set (dr_domains (categorize_row a r2)).

(** The order of discovery on index pairs: [i] ascending, then [j]. *)
Definition lex_lt (p q : nat * nat) : Prop :=
  (p.1 < q.1 \/ (p.1 = q.1 /\ p.2 < q.2))%nat.

(** ** Sample inputs *)

(** No google-generativeai package: keyword-only mode. *)
Definition env_no_genai : genai_env :=
  {| GEMINI_AVAILABLE := false; make_model := fun _ => None |}.

Definition keyword_analyzer : FYPAnalyzer := init None env_no_genai.

(** A model that gives the same answer to every prompt. *)
Definition env_answering (answer : option gemini_result) : genai_env :=
  {| GEMINI_AVAILABLE := true; make_model := fun _ => Some (fun _ _ => answer) |}.

Definition ai_analyzer (answer : option gemini_result) : FYPAnalyzer :=
  init (Some "key") (env_answering answer).

Definition blank_row : row := load_row "P0" None None None.

Definition shop_row : row :=
  load_row "P1" (Some "Website Android shop") (Some "") None.

Definition store_row : row :=
  load_row "P2" (Some "Website Android store") (Some "") None.

(** The same project entered a second time. *)
Definition store_copy_row : row :=
  load_row "P3" (Some "Website Android store") (Some "") None.

Definition cricket_row : row :=
  load_row "P4" (Some "Cricket coaching") (Some "") None.

Definition app_row : row :=
  load_row "P5" (Some "Shop app") (Some "Android and website shop") None.

Definition saas_row : row := load_row "P6" (Some "SaaSaaS") (Some "") None.

Definition four_rows : list row := [shop_row; store_row; store_copy_row; cricket_row].

(** A symmetric similarity matrix with unit diagonal, given by its entries
    for the first three texts; every other entry is 0. *)
Definition matrix (s01 s02 s12 : Q) (i j : nat) : Q :=
  if (i =? j)%nat then 1%Q
  else
    match Nat.min i j, Nat.max i j with
    | 0%nat, 1%nat => s01
    | 0%nat, 2%nat => s02
    | 1%nat, 2%nat => s12
    | _, _ => 0%Q
    end.

(** The first text is equally close to the second and to its copy. *)
Definition sim_copies : nat -> nat -> Q := matrix (4336 # 10000) (4336 # 10000) 1.

(** Two scores that lie just above a boundary. *)
Definition sim_edges : nat -> nat -> Q := matrix (7004 # 10000) (3004 # 10000) 1.

Definition web_info (c : Z) : domain_info :=
  {| name := "Web Development"; confidence := c; reasoning := "has a website" |}.

Definition mobile_info (c : Z) : domain_info :=
  {| name := "Mobile Development"; confidence := c; reasoning := "has an Android app" |}.

(** An answer whose primary domain is reported second. *)
Definition answer_primary_second : gemini_result :=
  {| domains := [web_info 7; mobile_info 9]; primary_domain := "Mobile Development" |}.


(** An answer that parses but retains nothing. *)
Definition answer_nothing : gemini_result :=
  {| domains := [web_info 5]; primary_domain := "" |}.

(** White-space runs already reduced to single spaces; [after_space] tells
    whether the previous character was white space. *)
Fixpoint tidy (after_space : bool) (s : string) : bool :=
  match s with
  | EmptyString => true
  | String c s' =>
      if Text.is_space c
      then (Ascii.eqb c " " && negb after_space && tidy true s')%bool
      else tidy false s'
  end.

(** ** The text [categorize_with_gemini] hands to the JSON parser *)

Fixpoint string_drop (n : nat) (s : string) : string :=
  match n, s with
  | O, _ => s
  | S k, String _ s' => string_drop k s'
  | S _, EmptyString => EmptyString
  end.

(** The first cut of [s.split(sep)]: the text before the first occurrence
    of [sep] and the text behind it; [None] when [sep] does not occur. *)
Fixpoint cut (sep s : string) : option (string * string) :=
  if String.prefix sep s then Some (EmptyString, string_drop (String.length sep) s)
  else
    match s with
    | EmptyString => None
    | String c s' =>
        match cut sep s' with
        | Some (before, behind) => Some (String c before, behind)
        | None => None
        end
    end.

(** [s.split(sep)[0]] *)
Definition split_item0 (sep s : string) : string :=
  match cut sep s with
  | Some (before, _) => before
  | None => s
  end.

(** [s.split(sep)[1]]; [None] is the IndexError of a list with one item. *)
Definition split_item1 (sep s : string) : option string :=
  match cut sep s with
  | Some (_, behind) => Some (split_item0 sep behind)
  | None => None
  end.

Definition json_fence : string := "```json".

Definition plain_fence : string := "```".

(** The argument of [json.loads]: the stripped response, or the inside of
    its first code fence.  [None] is an exception of the slicing, which the
    method would catch. *)
Definition payload_text (text : string) : option string :=
  let response_text := Text.strip text in
  if Text.contains json_fence response_text then
    match split_item1 json_fence response_text with
    | Some inner => Some (Text.strip (split_item0 plain_fence inner))
    | None => None
    end
  else if Text.contains plain_fence response_text then
    match split_item1 plain_fence response_text with
    | Some inner => Some (Text.strip inner)
    | None => None
    end
  else Some response_text.

(** A text without a backtick. *)
Fixpoint no_backtick (s : string) : bool :=
  match s with
  | EmptyString => true
  | String c s' => (negb (Ascii.eqb c "`") && no_backtick s')%bool
  end.

(** A text in which no backtick is directly followed by the letter j;
    [after_tick] tells whether the previous character was a backtick. *)
Fixpoint tick_j_free (after_tick : bool) (s : string) : bool :=
  match s with
  | EmptyString => true
  | String c s' =>
      (negb (after_tick && Ascii.eqb c "j") && tick_j_free (Ascii.eqb c "`") s')%bool
  end.

(** ** Notions for the further properties *)

(** What the code records in an entry of [confidence_scores], by method:
    an AI entry has a score of at least 6 and a reasoning text; a keyword
    entry has at least one evidence keyword and a score of at least their
    number; the existing-label and default entries have score 1. *)
Definition well_scored (e : conf_entry) : Prop :=
  (method e = "gemini_ai" /\ 6 <= score e /\ exists t, support e = Reasoning t) \/
  (method e = "keyword_matching" /\
   exists kws, support e = Keywords kws /\ kws <> [] /\ Z.of_nat (length kws) <= score e) \/
  (method e = "existing_data" /\ score e = 1 /\ support e = Keywords ["manual_categorization"]) \/
  (method e = "default" /\ score e = 1 /\ support e = Keywords []).

(** The order of the similarity levels. *)
Definition level_rank (level : string) : nat :=
  if String.eqb level "Very High" then 3
  else if String.eqb level "High" then 2
  else if String.eqb level "Medium" then 1
  else 0.

(** ** [create_similarity_excel]: the sheets by level *)

Definition similarity_levels : list string := ["Very High"; "High"; "Medium"; "Low"].

(** The [to_excel] calls of the loop over the levels: sheet name and rows,
    for every level that has rows. *)
Definition level_sheets (similarity_df : list similar_pair)
  : list (string * list similar_pair) :=
  flat_map
    (fun level =>
       match List.filter (fun p => String.eqb (similarity_level p) level) similarity_df with
       | [] => []
       | level_df => [(level +:+ "_Similarity", level_df)]
       end)
    similarity_levels.

(** ** [create_domain_excel]: the sheet name of a domain *)

Fixpoint string_filter (f : ascii -> bool) (s : string) : string :=
  match s with
  | EmptyString => EmptyString
  | String c s' => if f c then String c (string_filter f s') else string_filter f s'
  end.

Fixpoint string_take (n : nat) (s : string) : string :=
  match n, s with
  | S k, String c s' => String c (string_take k s')
  | _, _ => EmptyString
  end.

Fixpoint string_forall (f : ascii -> bool) (s : string) : bool :=
  match s with
  | EmptyString => true
  | String c s' => (f c && string_forall f s')%bool
  end.

(** [\w]: the underscore and the characters of [str.isalnum].  Below U+0100
    these are the ASCII letters and digits, the Latin-1 letters (U+00C0 to
    U+00FF without the signs U+00D7 and U+00F7, the ordinal indicators
    U+00AA and U+00BA, the micro sign U+00B5), the superscript digits
    U+00B2, U+00B3 and U+00B9 and the fractions U+00BC to U+00BE. *)
Definition is_word_char (c : ascii) : bool :=
  let n := nat_of_ascii c in
  (((48 <=? n)%nat && (n <=? 57)%nat) || ((65 <=? n)%nat && (n <=? 90)%nat) ||
   ((97 <=? n)%nat && (n <=? 122)%nat) || (n =? 95)%nat ||
   (n =? 170)%nat || (n =? 178)%nat || (n =? 179)%nat || (n =? 181)%nat ||
   (n =? 185)%nat || (n =? 186)%nat || ((188 <=? n)%nat && (n <=? 190)%nat) ||
   ((192 <=? n)%nat && negb (n =? 215)%nat && negb (n =? 247)%nat))%bool.

(** The characters [[^\w\s-]] does not remove. *)
Definition sheet_char (c : ascii) : bool :=
  (is_word_char c || Text.is_space c || Ascii.eqb c "-")%bool.

(** [re.sub(r'[^\w\s-]', '', domain)[:31]] *)
Definition sheet_name (domain : string) : string :=
  string_take 31 (string_filter sheet_char domain).

(** ** [generate_similarity_explanation] *)

(** [text.split()]: the maximal runs of characters that are not white
    space, in order; [word] is the run being read. *)
Fixpoint words_from (word : string) (s : string) : list string :=
  match s with
  | EmptyString =>
      match word with
      | EmptyString => []
      | _ => [word]
      end
  | String c s' =>
      if Text.is_space c
      then
        match word with
        | EmptyString => words_from EmptyString s'
        | _ => word :: words_from EmptyString s'
        end
      else words_from (word +:+ String c EmptyString) s'
  end.

Definition words (text : string) : list string := words_from EmptyString text.

Definition common_stop_words : list string :=
  ["that"; "this"; "with"; "from"; "they"; "were"; "been"].

(** [len(word) > 3 and word not in [...]] *)
Definition meaningful (word : string) : bool :=
  ((3 <? String.length word)%nat && negb (bool_decide (word ∈ common_stop_words)))%bool.

(** [sep.join(l)] *)
Fixpoint join (sep : string) (l : list string) : string :=
  match l with
  | [] => EmptyString
  | [x] => x
  | x :: l' => x +:+ sep +:+ join sep l'
  end.

(** The order in which Python iterates over a set, in the call at hand. *)
Definition set_order : Type := gset string -> list string.

(** The list [meaningful_common]. *)
Definition meaningful_common (iter : set_order) (text1 text2 : string) : list string :=
  List.filter meaningful (iter (list_to_set (words text1) ∩ list_to_set (words text2))).

(** The closing sentence, chosen by the [if]/[elif]/[else] on the score. *)
Definition band_clause (similarity_score : Q) : string :=
  if Qgtb similarity_score (7 # 10)
  then "Very similar project objectives and methodologies"
  else if Qgtb similarity_score (5 # 10)
  then "Similar approach with some methodological overlap"
  else "Some conceptual similarities in approach".

(** The list [explanation_parts] when the method returns. *)
Definition explanation_parts (iter : set_order) (similarity_score : Q)
    (overlapping : gset string) (text1 text2 : string) : list string :=
  (if bool_decide (overlapping = ∅) then []
   else ["Both projects belong to " +:+ join ", " (iter overlapping) +:+ " domain(s)"]) ++
  (match meaningful_common iter text1 text2 with
   | [] => []
   | w :: ws =>
       if (5 <? length (w :: ws))%nat
       then ["Share multiple technical concepts and approaches"]
       else ["Share common concepts: " +:+ join ", " (firstn 3 (w :: ws))]
   end) ++
  [band_clause similarity_score].

Definition generate_similarity_explanation (iter : set_order) (similarity_score : Q)
    (overlapping : gset string) (text1 text2 : string) : string :=
  join ". " (explanation_parts iter similarity_score overlapping text1 text2) +:+ ".".

(** The closing sentence that goes with a similarity level. *)
Definition band_of_level (level : string) : string :=
  if String.eqb level "Very High"
  then "Very similar project objectives and methodologies"
  else if String.eqb level "High"
  then "Similar approach with some methodological overlap"
  else "Some conceptual similarities in approach".

(** ** [categorize_by_domain] on whatever [json.loads] returned *)

(** A value returned by [json.loads]: [None], a bool, an int or a finite
    float (the number it denotes), an infinity or the NaN constant, a
    string, a list, or a dict as the list of its items, whose keys are
    pairwise distinct. *)
#[warnings="-register-all"] Inductive json :=
| JNull
| JBool (b : bool)
| JNumber (q : Q)
| JInfinity (negative : bool)
| JNaN
| JString (s : string)
| JArray (items : list json)
| JObject (members : list (string * json)).

(** The truth value of [v] in [if v:] and [v and ...]. *)
Definition py_truthy (v : json) : bool :=
  match v with
  | JNull => false
  | JBool b => b
  | JNumber q => negb (Qeq_bool q 0)
  | JInfinity _ => true
  | JNaN => true
  | JString s => Text.truthy s
  | JArray items => match items with [] => false | _ :: _ => true end
  | JObject members => match members with [] => false | _ :: _ => true end
  end.

(** [v.get(k, dflt)]; only a dict has the method, and [None] here is the
    AttributeError every other value raises. *)
Definition py_get (v : json) (k : string) (dflt : json) : option json :=
  match v with
  | JObject members =>
      match find (fun m : string * json => bool_decide (m.1 = k)) members with
      | Some m => Some m.2
      | None => Some dflt
      end
  | _ => None
  end.

(** The one-character strings a [for] loop over a string visits. *)
Fixpoint py_chars (s : string) : list json :=
  match s with
  | EmptyString => []
  | String c s' => JString (String c EmptyString) :: py_chars s'
  end.

(** What [for x in v] visits: the items of a list, the keys of a dict, the
    characters of a string; [None] here is the TypeError of a value that is
    not iterable. *)
Definition py_iter (v : json) : option (list json) :=
  match v with
  | JArray items => Some items
  | JObject members => Some (map (fun m : string * json => JString m.1) members)
  | JString s => Some (py_chars s)
  | _ => None
  end.

(** [v >= 6]: numbers compare by value, a bool counts as 0 or 1, NaN
    compares false; [None] here is the TypeError of a comparison between an
    int and [None], a string, a list or a dict. *)
Definition py_ge_6 (v : json) : option bool :=
  match v with
  | JNumber q => Some (Qle_bool 6 q)
  | JBool _ => Some false
  | JInfinity negative => Some (negb negative)
  | JNaN => Some false
  | _ => None
  end.

(** A value as a dictionary key and as an operand of [==]: equal numbers
    are one key whatever their type ([True == 1 == 1.0]), and the NaN
    constant of the json module is one object.  Lists and dicts are not
    hashable: [None] here is the TypeError of [confidence_scores[v] = ...]. *)
Inductive pykey :=
| KNone
| KNumber (q : Q)
| KInfinity (negative : bool)
| KNaN
| KString (s : string).

Definition py_key (v : json) : option pykey :=
  match v with
  | JNull => Some KNone
  | JBool b => Some (KNumber (if b then 1 else 0))
  | JNumber q => Some (KNumber (Qred q))
  | JInfinity negative => Some (KInfinity negative)
  | JNaN => Some KNaN
  | JString s => Some (KString s)
  | JArray _ => None
  | JObject _ => None
  end.

#[global] Instance Q_eq_dec : EqDecision Q.
Proof. solve_decision. Defined.

#[global] Instance pykey_eq_dec : EqDecision pykey.
Proof. solve_decision. Defined.

(** [x in matched_domains], for a list of hashable values: a list or a
    dict equals none of them. *)
Definition py_in (x : json) (matched_domains : list json) : bool :=
  match py_key x with
  | Some k => bool_decide (Some k ∈ map py_key matched_domains)
  | None => false
  end.

(** The body of [for domain_info in ...] on the list [matched_domains]. *)
Definition gemini_domain_json (matched_domains : list json) (domain_info : json)
  : option (list json) :=
  domain_name ← py_get domain_info "name" (JString "");
  domain_confidence ← py_get domain_info "confidence" (JNumber 0);
  _ ← py_get domain_info "reasoning" (JString "");
  if py_truthy domain_name
  then
    high ← py_ge_6 domain_confidence;
    if high : bool
    then _ ← py_key domain_name; Some (matched_domains ++ [domain_name])
    else Some matched_domains
  else Some matched_domains.

Fixpoint gemini_domains_json (matched_domains : list json) (items : list json)
  : option (list json) :=
  match items with
  | [] => Some matched_domains
  | domain_info :: rest =>
      matched ← gemini_domain_json matched_domains domain_info;
      gemini_domains_json matched rest
  end.

(** [matched_domains] after the loop over [gemini_result.get('domains', [])]. *)
Definition retained_json (gemini_result : json) : option (list json) :=
  answer_domains ← py_get gemini_result "domains" (JArray []);
  items ← py_iter answer_domains;
  gemini_domains_json [] items.

(** [matched_domains] after the block [if gemini_result:]. *)
Definition ai_step_json (gemini_result : json) : option (list json) :=
  matched ← retained_json gemini_result;
  answer_primary ← py_get gemini_result "primary_domain" (JString "");
  if (py_truthy answer_primary && negb (py_in answer_primary matched))%bool
  then _ ← py_key answer_primary; Some (answer_primary :: matched)
  else Some matched.

(** [if gemini_result:] and its block; [None] when the block raises. *)
Definition ai_block_json (gemini_result : option json) : option (list json) :=
  match gemini_result with
  | Some v => if py_truthy v then ai_step_json v else Some []
  | None => Some []
  end.

(** The list [matched_domains] that the record of a row is built from,
    given the value of [gemini_result] when the block [if gemini_result:] is
    reached; [None] when the block raises.  [confidence_scores] is left
    out, apart from the TypeError of its key assignments. *)
Definition matched_domains_of (a : FYPAnalyzer) (r : row) (gemini_result : option json)
  : option (list json) :=
  matched ← ai_block_json gemini_result;
  match matched with
  | [] => Some (map JString (default_step (fallback_step (domain_keywords a) r no_domains)).1)
  | _ :: _ => Some matched
  end.



(** * Properties *)

(** ** Counting occurrences *)

Module TextFacts.
Import Text.

Lemma occurrences_nonneg sub s : 0 <= occurrences sub s.
Proof.
  induction s as [|c s IH]; cbn [occurrences]; case_match; lia.
Qed.

Lemma count_from_nonneg sub s : forall skip, 0 <= count_from sub skip s.
Proof.
  induction s as [|c s IH]; intros [|k]; cbn [count_from]; try lia.
  - case_match; lia.
  - case_match.
    + specialize (IH (String.length sub - 1)%nat). lia.
    + apply IH.
  - apply IH.
Qed.

Lemma count_from_le_occurrences sub s :
  forall skip, count_from sub skip s <= occurrences sub s.
Proof.
  induction s as [|c s IH]; intros [|k]; cbn [count_from occurrences].
  - case_match; lia.
  - case_match; lia.
  - case_match.
    + specialize (IH (String.length sub - 1)%nat). lia.
    + specialize (IH 0%nat). lia.
  - specialize (IH k). case_match; lia.
Qed.

Lemma occurrences_pos_count_pos sub s :
  0 < occurrences sub s -> 0 < count_from sub 0 s.
Proof.
  induction s as [|c s IH]; cbn [count_from occurrences].
  - case_match; lia.
  - case_match.
    + pose proof (count_from_nonneg sub s (String.length sub - 1)). lia.
    + intros Hpos. apply IH. lia.
Qed.

Lemma contains_occurrences sub s :
  contains sub s = true <-> 0 < occurrences sub s.
Proof.
  induction s as [|c s IH]; cbn [contains occurrences].
  - case_match; simpl; split; (lia || congruence).
  - pose proof (occurrences_nonneg sub s).
    case_match; simpl.
    + split; [lia | reflexivity].
    + rewrite IH. lia.
Qed.

(** [str.count] never exceeds the number of (possibly overlapping)
    positions, and is positive exactly when the substring occurs. *)
Lemma count_bounds s sub :
  0 <= count s sub <= occurrences sub s /\
  (0 < count s sub <-> 0 < occurrences sub s).
Proof.
  unfold count. split.
  - split; [apply count_from_nonneg | apply count_from_le_occurrences].
  - split.
    + pose proof (count_from_le_occurrences sub s 0). lia.
    + apply occurrences_pos_count_pos.
Qed.

End TextFacts.

(** ** The resolution pipeline, step by step *)

Section Steps.

Implicit Types (st : resolution) (g : gemini_result) (r : row) (a : FYPAnalyzer).

Lemma keyed_no_domains : keyed no_domains.
Proof. unfold keyed, no_domains; simpl. by rewrite dom_empty_L. Qed.

Lemma keyed_append st d e : keyed st -> keyed (st.1 ++ [d], <[d := e]> st.2).
Proof.
  unfold keyed; simpl; intros H.
  rewrite dom_insert_L, list_to_set_app_L, H. simpl.
  by rewrite (right_id_L ∅ (∪)), (comm_L (∪)).
Qed.

Lemma keyed_cons st d e : keyed st -> keyed (d :: st.1, <[d := e]> st.2).
Proof. unfold keyed; simpl; intros H. by rewrite dom_insert_L, H. Qed.

(** An empty [matched_domains] comes with an empty [confidence_scores]. *)
Lemma keyed_nil st : keyed st -> st.1 = [] -> st = no_domains.
Proof.
  destruct st as [md cs]; unfold keyed; simpl; intros H ->.
  simpl in H. apply dom_empty_inv_L in H. rewrite H. reflexivity.
Qed.

Lemma keyed_gemini_domains g st : keyed st -> keyed (gemini_domains g st).
Proof.
  unfold gemini_domains. revert st.
  induction (domains g) as [|info l IH]; simpl; intros st H; [done|].
  apply IH. destruct (retained info); [by apply keyed_append | done].
Qed.

Lemma keyed_gemini_primary g st : keyed st -> keyed (gemini_primary g st).
Proof.
  unfold gemini_primary; intros H. case_match; [by apply keyed_cons | done].
Qed.

Lemma keyed_ai_step g : keyed (ai_step g).
Proof. apply keyed_gemini_primary, keyed_gemini_domains, keyed_no_domains. Qed.

Lemma keyed_keyword_domains tax text st :
  keyed st -> keyed (keyword_domains tax text st).
Proof.
  unfold keyword_domains. revert st.
  induction tax as [|dk tax IH]; simpl; intros st H; [done|].
  apply IH. case_match; [by apply keyed_append | done].
Qed.

Lemma keyed_existing_label r st : keyed st -> keyed (existing_label r st).
Proof.
  unfold existing_label; intros H. destruct st as [md cs]; simpl.
  destruct md as [|d md]; [|done].
  destruct (existing_domain r) as [e|]; [|done].
  case_match; [|done]. by apply (keyed_append ([], cs)).
Qed.

Lemma keyed_fallback_step tax r st : keyed st -> keyed (fallback_step tax r st).
Proof.
  unfold fallback_step; intros H. case_match; [|done].
  by apply keyed_existing_label, keyed_keyword_domains.
Qed.

Lemma keyed_default_step st : keyed st -> keyed (default_step st).
Proof.
  unfold default_step; intros H. case_match; [|done].
  unfold keyed; simpl. rewrite dom_insert_L, H.
  replace st.1 with (@nil string) by done. set_solver.
Qed.

Lemma keyed_resolve a r : keyed (resolve a r).
Proof.
  unfold resolve. apply keyed_default_step, keyed_fallback_step.
  case_match; [apply keyed_ai_step | apply keyed_no_domains].
Qed.

(** *** The list of matched domains each loop builds *)

Lemma gemini_domains_fst g st :
  (gemini_domains g st).1 = st.1 ++ retained_names g.
Proof.
  unfold gemini_domains, retained_names. revert st.
  induction (domains g) as [|info l IH]; simpl; intros st.
  - by rewrite app_nil_r.
  - rewrite IH. destruct (retained info); simpl; [|done].
    by rewrite <- app_assoc.
Qed.

Lemma ai_step_fst g :
  (ai_step g).1 =
  if (Text.truthy (primary_domain g)
      && negb (bool_decide (primary_domain g ∈ retained_names g)))%bool
  then primary_domain g :: retained_names g
  else retained_names g.
Proof.
  unfold ai_step, gemini_primary. cbv zeta.
  rewrite gemini_domains_fst. simpl.
  case_match; simpl; [done|]. by rewrite gemini_domains_fst.
Qed.

Lemma keyword_tally_spec text kws :
  keyword_tally text kws = (domain_score text kws, evidence_keywords text kws).
Proof.
  unfold keyword_tally, domain_score, evidence_keywords.
  assert (G : forall (acc : Z * list string),
    fold_left
      (fun (acc : Z * list string) keyword =>
         let c := Text.count text (Text.lower keyword) in
         if 0 <? c then (acc.1 + c, acc.2 ++ [keyword]) else acc) kws acc =
    (acc.1 + foldr Z.add 0 (map (fun k => Text.count text (Text.lower k)) kws),
     acc.2 ++ List.filter (fun k => 0 <? Text.count text (Text.lower k)) kws)).
  { induction kws as [|k kws IH]; intros [z l]; simpl.
    - by rewrite Z.add_0_r, app_nil_r.
    - rewrite IH.
      pose proof (TextFacts.count_from_nonneg (Text.lower k) text 0) as Hc.
      fold (Text.count text (Text.lower k)) in Hc.
      destruct (0 <? Text.count text (Text.lower k)) eqn:E; simpl.
      + f_equal; [lia | by rewrite <- app_assoc].
      + apply Z.ltb_ge in E. f_equal. lia. }
  rewrite G. simpl. done.
Qed.

Lemma domain_score_nonneg text kws : 0 <= domain_score text kws.
Proof.
  unfold domain_score. induction kws as [|k kws IH]; simpl; [lia|].
  pose proof (TextFacts.count_from_nonneg (Text.lower k) text 0) as Hc.
  fold (Text.count text (Text.lower k)) in Hc. lia.
Qed.

Lemma keyword_domains_fst tax text st :
  (keyword_domains tax text st).1 =
  st.1 ++ map fst (List.filter (scoring text) tax).
Proof.
  unfold keyword_domains, scoring. revert st.
  induction tax as [|[d kws] tax IH]; simpl; intros st.
  - by rewrite app_nil_r.
  - rewrite IH, keyword_tally_spec. simpl.
    destruct (0 <? domain_score text kws); simpl; [|done].
    by rewrite <- app_assoc.
Qed.

Lemma find_undeclared (tax : taxonomy) d :
  d ∉ map fst tax ->
  find (fun dk : string * list string => bool_decide (dk.1 = d)) tax = None.
Proof.
  induction tax as [|[d' kws] tax IH]; simpl; intros Hd; [done|].
  apply not_elem_of_cons in Hd as [Hne Hd].
  rewrite bool_decide_eq_false_2 by done. by apply IH.
Qed.

Lemma keyword_domains_lookup tax text st d :
  NoDup (map fst tax) ->
  (keyword_domains tax text st).2 !! d =
  match find (fun dk => bool_decide (dk.1 = d)) tax with
  | Some dk =>
      if scoring text dk
      then Some (keyword_entry (domain_score text dk.2) (evidence_keywords text dk.2))
      else st.2 !! d
  | None => st.2 !! d
  end.
Proof.
  unfold keyword_domains, scoring. revert st.
  induction tax as [|[d' kws] tax IH]; simpl; intros st Hnd; [done|].
  apply NoDup_cons in Hnd as [Hd' Hnd].
  rewrite IH by done. rewrite keyword_tally_spec. simpl.
  destruct (bool_decide (d' = d)) eqn:E.
  - apply bool_decide_eq_true in E. subst d'.
    rewrite (find_undeclared tax d Hd'). simpl.
    destruct (0 <? domain_score text kws); simpl; [|done].
    by rewrite lookup_insert_eq.
  - apply bool_decide_eq_false in E.
    destruct (find _ tax) as [dk|]; [destruct (0 <? domain_score text dk.2); [done|] |];
      (destruct (0 <? domain_score text kws); simpl; [by rewrite lookup_insert_ne | done]).
Qed.

End Steps.

(** ** Which step produces the result *)

Section Provenance.

Implicit Types (st : resolution) (g : gemini_result) (r : row) (a : FYPAnalyzer).

Lemma tagged_no_domains m : tagged m no_domains.
Proof. intros d e; simpl. by rewrite lookup_empty. Qed.

Lemma tagged_insert m st (l : list string) d e :
  tagged m st -> method e = m -> tagged m (l, <[d := e]> st.2).
Proof.
  intros H He d' e'; simpl. rewrite lookup_insert_Some.
  intros [[_ <-] | [_ H']]; [done | by apply (H d')].
Qed.

Lemma tagged_gemini_domains g st :
  tagged "gemini_ai" st -> tagged "gemini_ai" (gemini_domains g st).
Proof.
  unfold gemini_domains. revert st.
  induction (domains g) as [|info l IH]; simpl; intros st H; [done|].
  apply IH. destruct (retained info); [by apply tagged_insert | done].
Qed.

Lemma tagged_ai_step g : tagged "gemini_ai" (ai_step g).
Proof.
  unfold ai_step, gemini_primary.
  pose proof (tagged_gemini_domains g no_domains (tagged_no_domains _)) as H.
  case_match; [by apply tagged_insert | done].
Qed.

Lemma tagged_keyword_domains tax text st :
  tagged "keyword_matching" st -> tagged "keyword_matching" (keyword_domains tax text st).
Proof.
  unfold keyword_domains. revert st.
  induction tax as [|dk tax IH]; simpl; intros st H; [done|].
  apply IH. case_match; [by apply tagged_insert | done].
Qed.

Lemma tagged_step_result a r s : tagged (step_tag s) (step_result a r s).
Proof.
  destruct s; simpl.
  - case_match; [apply tagged_ai_step | apply tagged_no_domains].
  - apply tagged_keyword_domains, tagged_no_domains.
  - case_match; [|apply tagged_no_domains].
    apply (tagged_insert _ no_domains); [apply tagged_no_domains | done].
  - apply (tagged_insert _ no_domains); [apply tagged_no_domains | done].
Qed.

(** With no domain from the AI step, the rest of the pipeline is the
    keyword step, then the existing label, then the default. *)
Lemma fallback_from_nothing a r :
  default_step (fallback_step (domain_keywords a) r no_domains) =
  match (keyword_result a r).1, existing_domain r with
  | _ :: _, _ => keyword_result a r
  | [], Some e =>
      if Text.truthy (Text.strip e)
      then ([Text.strip e], {[Text.strip e := existing_entry]})
      else (["Other"], {["Other" := default_entry]})
  | [], None => (["Other"], {["Other" := default_entry]})
  end.
Proof.
  unfold fallback_step; simpl. fold (keyword_result a r).
  pose proof (keyed_keyword_domains (domain_keywords a)
    (combined_lower (project_title r) (project_scope r)) _ keyed_no_domains) as Hk.
  fold (keyword_result a r) in Hk.
  destruct (keyword_result a r) as [md cs] eqn:E. destruct md as [|d md]; simpl.
  - apply keyed_nil in Hk; [|done]. injection Hk as ->.
    unfold existing_label; simpl.
    destruct (existing_domain r) as [e|]; [|done].
    destruct (Text.truthy (Text.strip e)); done.
  - unfold existing_label; simpl. done.
Qed.

Lemma fallback_is_step_result a r :
  match (keyword_result a r).1, existing_domain r with
  | _ :: _, _ => keyword_result a r
  | [], Some e =>
      if Text.truthy (Text.strip e)
      then ([Text.strip e], {[Text.strip e := existing_entry]})
      else (["Other"], {["Other" := default_entry]})
  | [], None => (["Other"], {["Other" := default_entry]})
  end =
  step_result a r
    match (keyword_result a r).1, existing_domain r with
    | _ :: _, _ => KeywordStep
    | [], Some e => if Text.truthy (Text.strip e) then ExistingLabelStep else DefaultStep
    | [], None => DefaultStep
    end.
Proof.
  destruct (keyword_result a r).1; [|done].
  destruct (existing_domain r) as [e|] eqn:Ee; [|done].
  destruct (Text.truthy (Text.strip e)); simpl; [|done]. by rewrite Ee.
Qed.

Lemma resolve_by_step a r :
  resolve a r = step_result a r (producing_step a r).
Proof.
  unfold resolve, producing_step.
  pose proof (fallback_from_nothing a r) as F.
  destruct (consult_gemini a r) as [g|] eqn:Eg.
  - destruct (ai_step g) as [md cs] eqn:Ea. destruct md as [|d md]; simpl.
    + pose proof (keyed_ai_step g) as Hk. rewrite Ea in Hk.
      apply keyed_nil in Hk; [|done]. rewrite Hk, F.
      apply fallback_is_step_result.
    + by rewrite Eg.
  - rewrite F. apply fallback_is_step_result.
Qed.

End Provenance.

(** ** The resolution method tag *)

Section MethodTag.

Implicit Types (r : row) (a : FYPAnalyzer).



(** The record-level tag after an answer that parses but retains no
    domain: the keyword step produces the domains, the tag reads
    'gemini_ai', and the entry of the domain reads 'keyword_matching'. *)
Lemma method_tag_after_empty_answer :
  let out := categorize_row (ai_analyzer (Some answer_nothing)) app_row in
  producing_step (ai_analyzer (Some answer_nothing)) app_row = KeywordStep /\
  categorization_method out = "gemini_ai" /\
  method <$> confidence_scores out !! "Web Development" = Some "keyword_matching".
Proof. vm_compute. repeat split. Qed.




(** C10: the keys of [confidence_scores] are exactly the matched domains,
    on every resolution path. *)
Theorem confidence_keys_are_matched_domains a r :
  dom (confidence_scores (categorize_row a r))
    =@{gset string} list_to_set (dr_domains (categorize_row a r)) /\
  forall d,
    is_Some (confidence_scores (categorize_row a r) !! d) <->
    d ∈ dr_domains (categorize_row a r).
Proof.
  pose proof (keyed_resolve a r) as H. unfold keyed in H.
  split; [exact H|].
  intros d. rewrite <- elem_of_dom. simpl. rewrite H.
  by rewrite elem_of_list_to_set.
Qed.

End MethodTag.

(** ** The matched domains *)

Section MatchedDomains.

Implicit Types (r : row) (a : FYPAnalyzer) (g : gemini_result).


Lemma find_declared (tax : taxonomy) d kws :
  NoDup (map fst tax) -> (d, kws) ∈ tax ->
  find (fun dk : string * list string => bool_decide (dk.1 = d)) tax = Some (d, kws).
Proof.
  induction tax as [|[d' kws'] tax IH]; simpl; intros Hnd Hin.
  - by apply elem_of_nil in Hin.
  - apply NoDup_cons in Hnd as [Hd' Hnd].
    apply elem_of_cons in Hin as [Heq | Hin].
    + injection Heq as <- <-. by rewrite bool_decide_eq_true_2.
    + rewrite bool_decide_eq_false_2; [by apply IH|].
      intros ->. apply Hd'. apply list_elem_of_fmap. by exists (d, kws).
Qed.

(** The matched domains are never empty. *)
Lemma matched_domains_nonempty a r : dr_domains (categorize_row a r) <> [].
Proof.
  simpl. unfold resolve, default_step.
  destruct (fallback_step _ _ _) as [md cs]; simpl.
  destruct md; simpl; done.
Qed.


(** C4 at an input where the code misses it: the answer designates
    'Mobile Development' as primary domain and also reports it, in second
    place, at confidence 9.  The guard [primary_domain not in
    matched_domains] then skips the insertion at the front, the primary
    domain stays in second place, and the record's 'primary_domain', read
    from [matched_domains[0]], is 'Web Development'. *)
Lemma primary_domain_not_first :
  let a := ai_analyzer (Some answer_primary_second) in
  let out := categorize_row a app_row in
  consult_gemini a app_row = Some answer_primary_second /\
  primary_domain answer_primary_second = "Mobile Development" /\
  producing_step a app_row = AIStep /\
  categorization_method out = "gemini_ai" /\
  dr_domains out = ["Web Development"; "Mobile Development"] /\
  dr_primary_domain out = "Web Development" /\
  head (dr_domains out) <> Some (primary_domain answer_primary_second) /\
  dr_primary_domain out <> primary_domain answer_primary_second.
Proof. vm_compute. repeat split; congruence. Qed.

(** What the AI step yields in general: the names the answer retains, in
    the reported order, preceded by the primary domain when that is named
    and not among them. *)
Lemma ai_domains_order a r g :
  consult_gemini a r = Some g ->
  (ai_step g).1 <> [] ->
  categorization_method (categorize_row a r) = "gemini_ai" /\
  dr_domains (categorize_row a r) =
    (if bool_decide (primary_domain g ∈ retained_names g) then retained_names g
     else if Text.truthy (primary_domain g) then primary_domain g :: retained_names g
     else retained_names g) /\
  (Text.truthy (primary_domain g) = true ->
   primary_domain g ∈ dr_domains (categorize_row a r)).
Proof.
  intros Hg Hne.
  assert (Hd : dr_domains (categorize_row a r) = (ai_step g).1).
  { simpl. unfold resolve. rewrite Hg.
    unfold fallback_step, default_step.
    destruct (ai_step g) as [md cs]; simpl in *. by destruct md. }
  rewrite Hd, ai_step_fst. split; [simpl; by rewrite Hg|].
  destruct (bool_decide (primary_domain g ∈ retained_names g)) eqn:E;
    destruct (Text.truthy (primary_domain g)); simpl; split; try done.
  - intros _. by apply bool_decide_eq_true in E.
  - intros _. by left.
Qed.

End MatchedDomains.

(** ** The matched domains, whatever the adapter returned *)

Section AnyAnswer.

Implicit Types (v : json) (a : FYPAnalyzer) (r : row) (g : gemini_result).









(** *** Answers of the prompt's shape *)










(** What the block does with answers that are not of the prompt's shape:
    a list has no [get] (AttributeError), a confidence given as text is
    not comparable with 6 (TypeError), a name given as a list is not
    hashable (TypeError); a name given as a number is taken as it is. *)
Example ill_shaped_answers :
  matched_domains_of (ai_analyzer None) app_row (Some (JArray [JNumber 1])) = None /\
  matched_domains_of (ai_analyzer None) app_row
    (Some (JObject [("domains", JString "Web Development")])) = None /\
  matched_domains_of (ai_analyzer None) app_row
    (Some (JObject [("domains",
       JArray [JObject [("name", JString "Web Development");
                        ("confidence", JString "high")]])])) = None /\
  matched_domains_of (ai_analyzer None) app_row
    (Some (JObject [("domains",
       JArray [JObject [("name", JArray [JString "Web Development"]);
                        ("confidence", JNumber 7)]])])) = None /\
  matched_domains_of (ai_analyzer None) app_row
    (Some (JObject [("domains",
       JArray [JObject [("name", JNumber 5); ("confidence", JNumber 7)]])]))
    = Some [JNumber 5] /\
  matched_domains_of (ai_analyzer None) app_row (Some (JObject [("summary", JString "none")]))
    = Some [JString "Web Development"; JString "Mobile Development"].
Proof. vm_compute. repeat split. Qed.



End AnyAnswer.

(** ** The keyword fallback *)

Section KeywordFallback.

(** C7, as stated, fails: [str.count] does not count overlapping
    occurrences.  In "saasaas" the keyword "saas" occurs at positions 0
    and 3, and the domain scores 1. *)
Lemma keyword_score_counterexample :
  let text := combined_lower (project_title saas_row) (project_scope saas_row) in
  let cloud := keywords_of builtin_domain_keywords "Cloud Computing" in
  producing_step keyword_analyzer saas_row = KeywordStep /\
  Text.occurrences "saas" text = 2 /\
  overlapping_score text cloud = 2 /\
  score <$> confidence_scores (categorize_row keyword_analyzer saas_row) !! "Cloud Computing"
    = Some 1 /\
  score <$> confidence_scores (categorize_row keyword_analyzer saas_row) !! "Cloud Computing"
    <> Some (overlapping_score text cloud).
Proof. vm_compute. repeat split. congruence. Qed.

(** C7 (amended): in the keyword fallback the score of a domain is the sum
    over its keywords of what [str.count] returns for the lower-cased
    keyword in the lower-cased title-plus-scope text, that is of the
    occurrences found by a left-to-right scan that resumes behind each
    match: repeated occurrences count, overlapping ones do not, so the
    count is at most the number of positions and positive exactly when the
    keyword occurs.  A domain is emitted iff its score is positive, its
    evidence is the keywords of nonzero count, and the emitted domains are
    in declaration order. *)
Theorem keyword_scores (tax : taxonomy) (title scope : string) :
  NoDup (map fst tax) ->
  let text := combined_lower title scope in
  let out := keyword_domains tax text no_domains in
  out.1 = map fst (List.filter (fun dk => 0 <? domain_score text dk.2) tax) /\
  (forall d kws, (d, kws) ∈ tax ->
     out.2 !! d =
     if 0 <? domain_score text kws
     then Some {| score := domain_score text kws;
                  support := Keywords (evidence_keywords text kws);
                  method := "keyword_matching" |}
     else None) /\
  (forall k,
     0 <= Text.count text k <= Text.occurrences k text /\
     (0 < Text.count text k <-> 0 < Text.occurrences k text)).
Proof.
  intros Hnd text out. split; [|split].
  - unfold out. by rewrite keyword_domains_fst.
  - intros d kws Hin. unfold out.
    rewrite keyword_domains_lookup by done.
    rewrite (find_declared tax d kws Hnd Hin). unfold scoring; simpl.
    by rewrite lookup_empty.
  - intros k. apply TextFacts.count_bounds.
Qed.

Lemma keyword_scores_witness :
  let text := combined_lower "Website Android shop" "" in
  let out := keyword_domains builtin_domain_keywords text no_domains in
  out.1 = ["Web Development"; "Mobile Development"] /\
  (forall d kws, (d, kws) ∈ builtin_domain_keywords ->
     out.2 !! d =
     if 0 <? domain_score text kws
     then Some {| score := domain_score text kws;
                  support := Keywords (evidence_keywords text kws);
                  method := "keyword_matching" |}
     else None) /\
  (forall k,
     0 <= Text.count text k <= Text.occurrences k text /\
     (0 < Text.count text k <-> 0 < Text.occurrences k text)).
Proof.
  apply (keyword_scores builtin_domain_keywords "Website Android shop" "").
  apply (bool_decide_unpack _). vm_compute. exact I.
Defined.

End KeywordFallback.

(** ** The built-in taxonomy *)

Section Taxonomy.

(** The keys of the dictionary literal are pairwise distinct. *)
Lemma builtin_keys_distinct : NoDup (map fst builtin_domain_keywords).
Proof. apply (bool_decide_unpack _). by vm_compute. Qed.

End Taxonomy.

(** ** The similarity universe *)

Section Universe.

Lemma truthy_rstrip c s :
  Text.is_space c = false -> Text.truthy (Text.rstrip (String c s)) = true.
Proof. intros H. simpl. rewrite H. by destruct (Text.rstrip s). Qed.

Lemma truthy_strip s : Text.truthy (Text.strip s) = negb (blank s).
Proof.
  unfold Text.strip. induction s as [|c s IH]; [done|].
  cbn [Text.lstrip blank]. destruct (Text.is_space c) eqn:E; [done|].
  by rewrite truthy_rstrip.
Qed.

Lemma blank_app s t : blank (s +:+ t) = (blank s && blank t)%bool.
Proof.
  induction s as [|c s IH]; simpl; [done|].
  rewrite IH. by destruct (Text.is_space c).
Qed.

Lemma usable_has_text r : usable r = has_text r.
Proof.
  unfold usable, has_text, cleaned_text.
  by rewrite truthy_strip, !blank_app.
Qed.

Lemma filter_usable df : List.filter usable df = List.filter has_text df.
Proof.
  induction df as [|r df IH]; simpl; [done|].
  by rewrite usable_has_text, IH.
Qed.

(** C9: with fewer than two records that have some normalized text, the
    similarity computation returns the empty result, whatever the
    libraries would do; records without text are not in the universe of
    texts and project ids. *)
Theorem too_few_texts a cosine sort_values df :
  (length (List.filter has_text df) < 2)%nat ->
  calculate_similarity a cosine sort_values df = [] /\
  texts df = map cleaned_text (List.filter has_text df) /\
  project_ids df = map short_title (List.filter has_text df).
Proof.
  intros H. unfold calculate_similarity, texts, project_ids.
  rewrite filter_usable. split; [|done].
  rewrite length_map. by apply Nat.ltb_lt in H as ->.
Qed.

Lemma too_few_texts_witness :
  calculate_similarity keyword_analyzer (fun _ => None) sort_keeping_ties
    [blank_row; shop_row; blank_row] = [] /\
  texts [blank_row; shop_row; blank_row] = ["website android shop "] /\
  project_ids [blank_row; shop_row; blank_row] = ["P1"].
Proof.
  apply (too_few_texts keyword_analyzer (fun _ => None) sort_keeping_ties
           [blank_row; shop_row; blank_row]).
  vm_compute. lia.
Defined.

End Universe.

(** ** Rounding *)

Section Rounding.

Lemma round_half_even_bounds x :
  Qfloor x <= round_half_even x <= Qfloor x + 1.
Proof.
  unfold round_half_even.
  destruct (Qcompare _ _); [destruct (Z.even _)| |]; lia.
Qed.

Lemma round_half_even_mono x y :
  (x <= y)%Q -> round_half_even x <= round_half_even y.
Proof.
  intros Hxy.
  pose proof (Qfloor_resp_le x y Hxy) as Hf.
  pose proof (round_half_even_bounds x) as Bx.
  pose proof (round_half_even_bounds y) as By.
  destruct (Z.eq_dec (Qfloor x) (Qfloor y)) as [E|NE]; [|lia].
  unfold round_half_even in *. rewrite <- E in *.
  destruct (Qcompare_spec (x - inject_Z (Qfloor x)) (1 # 2)) as [Hx|Hx|Hx];
    destruct (Qcompare_spec (y - inject_Z (Qfloor x)) (1 # 2)) as [Hy|Hy|Hy];
    try lia; try (destruct (Z.even (Qfloor x)); lia); exfalso; lra.
Qed.

Lemma round_half_even_Z z : round_half_even (inject_Z z) = z.
Proof.
  unfold round_half_even. rewrite Qfloor_Z.
  destruct (Qcompare_spec (inject_Z z - inject_Z z) (1 # 2)) as [H|H|H];
    [exfalso; lra|done|exfalso; lra].
Qed.

Lemma Qfloor_opp x :
  Qfloor (- x) = (if Qeq_bool x (inject_Z (Qfloor x)) then - Qfloor x else - Qfloor x - 1).
Proof.
  pose proof (Qfloor_le x) as H1. pose proof (Qlt_floor x) as H2.
  pose proof (Qfloor_le (- x)) as H3. pose proof (Qlt_floor (- x)) as H4.
  rewrite inject_Z_plus in H2, H4.
  destruct (Qeq_bool x (inject_Z (Qfloor x))) eqn:E.
  - apply Qeq_bool_eq in E.
    assert (A : (inject_Z (Qfloor (- x)) <= inject_Z (- Qfloor x))%Q)
      by (rewrite inject_Z_opp; lra).
    assert (B : (inject_Z (- Qfloor x) < inject_Z (Qfloor (- x) + 1))%Q)
      by (rewrite inject_Z_opp, inject_Z_plus; lra).
    rewrite <- Zle_Qle in A. rewrite <- Zlt_Qlt in B. lia.
  - apply Qeq_bool_neq in E.
    assert (E' : (inject_Z (Qfloor x) < x)%Q).
    { apply Qle_lteq in H1 as [H1|H1]; [done|]. exfalso. apply E. by symmetry. }
    assert (A : (inject_Z (Qfloor (- x)) < inject_Z (- Qfloor x))%Q)
      by (rewrite inject_Z_opp; lra).
    assert (B : (inject_Z (- Qfloor x - 1) < inject_Z (Qfloor (- x) + 1))%Q).
    { rewrite inject_Z_plus. unfold Z.sub. rewrite inject_Z_plus, !inject_Z_opp. lra. }
    rewrite <- Zlt_Qlt in A, B. lia.
Qed.

Lemma round_half_even_opp x : round_half_even (- x) = - round_half_even x.
Proof.
  unfold round_half_even. rewrite Qfloor_opp.
  pose proof (Qfloor_le x) as H1. pose proof (Qlt_floor x) as H2.
  rewrite inject_Z_plus in H2.
  destruct (Qeq_bool x (inject_Z (Qfloor x))) eqn:E.
  - apply Qeq_bool_eq in E.
    destruct (Qcompare_spec (- x - inject_Z (- Qfloor x)) (1 # 2)) as [H|H|H];
      rewrite inject_Z_opp in H; try (exfalso; lra).
    destruct (Qcompare_spec (x - inject_Z (Qfloor x)) (1 # 2)) as [H'|H'|H'];
      try (exfalso; lra). done.
  - apply Qeq_bool_neq in E.
    assert (E' : (inject_Z (Qfloor x) < x)%Q).
    { apply Qle_lteq in H1 as [H1|H1]; [done|]. exfalso. apply E. by symmetry. }
    assert (I : (inject_Z (- Qfloor x - 1) == - inject_Z (Qfloor x) - 1)%Q).
    { unfold Z.sub. rewrite inject_Z_plus, !inject_Z_opp.
      change (inject_Z 1) with 1%Q. lra. }
    destruct (Qcompare_spec (- x - inject_Z (- Qfloor x - 1)) (1 # 2)) as [H|H|H];
      rewrite I in H;
      destruct (Qcompare_spec (x - inject_Z (Qfloor x)) (1 # 2)) as [H'|H'|H'];
      try (exfalso; lra); try lia.
    rewrite Z.even_sub, Z.even_opp. simpl.
    destruct (Z.even (Qfloor x)); simpl; lia.
Qed.

(** *** Doubles *)

Lemma two_power_pos k : (0 < 2 ^ k)%Q.
Proof. by apply Qpower_0_lt. Qed.

Lemma two_power_add a b : (2 ^ (a + b) == 2 ^ a * 2 ^ b)%Q.
Proof. by apply Qpower_plus. Qed.

Lemma two_power_Z n : 0 <= n -> (inject_Z (2 ^ n) == 2 ^ n)%Q.
Proof. intros Hn. by rewrite Zpower_Qpower. Qed.

Lemma two_power_le a b : a <= b -> (2 ^ a <= 2 ^ b)%Q.
Proof. intros H. by apply Qpower_le_compat_l. Qed.

Lemma two_power_lt_inv a b : (2 ^ a < 2 ^ b)%Q -> a < b.
Proof. intros H. by apply (Qpower_lt_compat_l_inv 2). Qed.

(** [ilog2 x] is the exponent of the binade of a positive [x]. *)
Lemma ilog2_spec x : (0 < x)%Q -> (2 ^ ilog2 x <= x)%Q /\ (x < 2 ^ (ilog2 x + 1))%Q.
Proof.
  destruct x as [n d]. intros Hx.
  assert (Hn : 0 < n) by (unfold Qlt in Hx; simpl in Hx; lia).
  unfold ilog2; cbn [Qnum Qden].
  set (a := Z.log2 n). set (b := Z.log2 (Z.pos d)).
  destruct (Z.log2_spec n Hn) as [A1 A2]. fold a in A1, A2.
  destruct (Z.log2_spec (Z.pos d) eq_refl) as [B1 B2]. fold b in B1, B2.
  assert (Ha : 0 <= a) by apply Z.log2_nonneg.
  assert (Hb : 0 <= b) by apply Z.log2_nonneg.
  assert (X : ((n # d) * inject_Z (Z.pos d) == inject_Z n)%Q).
  { unfold Qeq, Qmult, inject_Z; simpl. lia. }
  assert (Dpos : (0 < inject_Z (Z.pos d))%Q) by done.
  assert (QA1 : (2 ^ a <= inject_Z n)%Q) by (rewrite <- two_power_Z, <- Zle_Qle; lia).
  assert (QA2 : (inject_Z n < 2 ^ (a + 1))%Q) by (rewrite <- two_power_Z, <- Zlt_Qlt; lia).
  assert (QB1 : (2 ^ b <= inject_Z (Z.pos d))%Q) by (rewrite <- two_power_Z, <- Zle_Qle; lia).
  assert (QB2 : (inject_Z (Z.pos d) < 2 ^ (b + 1))%Q)
    by (rewrite <- two_power_Z, <- Zlt_Qlt; lia).
  assert (U : ((n # d) < 2 ^ (a - b + 1))%Q).
  { apply (Qmult_lt_r _ _ (2 ^ b)); [apply two_power_pos|].
    rewrite <- two_power_add. replace (a - b + 1 + b) with (a + 1) by lia.
    eapply Qle_lt_trans; [|exact QA2]. rewrite <- X.
    apply Qmult_le_l; [done|exact QB1]. }
  assert (L : (2 ^ (a - b - 1) < (n # d))%Q).
  { apply (Qmult_lt_r _ _ (inject_Z (Z.pos d))); [done|].
    rewrite X. eapply Qlt_le_trans; [|exact QA1].
    replace a with (a - b - 1 + (b + 1)) at 2 by lia. rewrite two_power_add.
    apply Qmult_lt_l; [apply two_power_pos|exact QB2]. }
  destruct (Qle_bool (2 ^ (a - b)) (n # d)) eqn:E.
  - apply Qle_bool_iff in E. by split.
  - split; [by apply Qlt_le_weak|].
    replace (a - b - 1 + 1) with (a - b) by lia.
    apply Qnot_le_lt. intros H. apply Qle_bool_iff in H. congruence.
Qed.

Lemma ilog2_mono x y : (0 < x)%Q -> (x <= y)%Q -> ilog2 x <= ilog2 y.
Proof.
  intros Hx Hxy.
  destruct (ilog2_spec x Hx) as [X1 _].
  destruct (ilog2_spec y) as [_ Y2]; [by eapply Qlt_le_trans|].
  assert (H : (2 ^ ilog2 x < 2 ^ (ilog2 y + 1))%Q).
  { eapply Qle_lt_trans; [exact X1|]. by eapply Qle_lt_trans. }
  apply two_power_lt_inv in H. lia.
Qed.

Lemma Qabs_of_pos x : (0 < x)%Q -> Qabs x = x.
Proof.
  destruct x as [n d]. unfold Qlt; simpl. intros H.
  by rewrite Z.abs_eq by lia.
Qed.

Lemma Qabs_of_opp x : Qabs (- x) = Qabs x.
Proof. destruct x as [n d]. simpl. by rewrite Z.abs_opp. Qed.

Lemma spacing_pos x : (0 < spacing x)%Q.
Proof. apply two_power_pos. Qed.

Lemma spacing_opp x : spacing (- x) = spacing x.
Proof. unfold spacing. by rewrite Qabs_of_opp. Qed.

(** Rounding on a grid of step [s] does not pass a point of the grid. *)
Lemma grid_round_le x s m :
  (0 < s)%Q -> (x <= inject_Z m * s)%Q ->
  (inject_Z (round_half_even (x / s)) * s <= inject_Z m * s)%Q.
Proof.
  intros Hs H. apply Qmult_le_compat_r; [|by apply Qlt_le_weak].
  rewrite <- Zle_Qle.
  assert (R : (x / s <= inject_Z m)%Q) by by apply Qle_shift_div_r.
  apply round_half_even_mono in R. by rewrite round_half_even_Z in R.
Qed.

Lemma grid_round_ge x s m :
  (0 < s)%Q -> (inject_Z m * s <= x)%Q ->
  (inject_Z m * s <= inject_Z (round_half_even (x / s)) * s)%Q.
Proof.
  intros Hs H. apply Qmult_le_compat_r; [|by apply Qlt_le_weak].
  rewrite <- Zle_Qle.
  assert (R : (inject_Z m <= x / s)%Q) by by apply Qle_shift_div_l.
  apply round_half_even_mono in R. by rewrite round_half_even_Z in R.
Qed.

Lemma nearest_double_mono_pos x y :
  (0 < x)%Q -> (x <= y)%Q -> (nearest_double x <= nearest_double y)%Q.
Proof.
  intros Hx Hxy.
  assert (Hy : (0 < y)%Q) by by eapply Qlt_le_trans.
  pose proof (ilog2_mono x y Hx Hxy) as He.
  destruct (ilog2_spec x Hx) as [_ X2]. destruct (ilog2_spec y Hy) as [Y1 _].
  unfold nearest_double, spacing. rewrite (Qabs_of_pos x Hx), (Qabs_of_pos y Hy).
  set (ex := ilog2 x) in *. set (ey := ilog2 y) in *.
  set (px := Z.max (ex - 52) (-1074)). set (py := Z.max (ey - 52) (-1074)).
  destruct (Z.eq_dec px py) as [E|NE].
  - rewrite E. apply Qmult_le_compat_r; [|apply Qlt_le_weak, two_power_pos].
    rewrite <- Zle_Qle. apply round_half_even_mono.
    apply Qmult_le_compat_r; [done|]. apply Qlt_le_weak, Qinv_lt_0_compat, two_power_pos.
  - assert (Hlt : ex < ey) by lia.
    assert (Hpy : py = ey - 52) by lia.
    apply Qle_trans with (2 ^ ey)%Q.
    + assert (S : (2 ^ ey == inject_Z (2 ^ (ey - px)) * 2 ^ px)%Q).
      { rewrite two_power_Z by lia. rewrite <- two_power_add. by replace (ey - px + px) with ey by lia. }
      rewrite S. apply grid_round_le; [apply two_power_pos|]. rewrite <- S.
      apply Qlt_le_weak. eapply Qlt_le_trans; [exact X2|]. apply two_power_le. lia.
    + assert (S : (2 ^ ey == inject_Z (2 ^ 52) * 2 ^ py)%Q).
      { rewrite two_power_Z by lia. rewrite <- two_power_add. by replace (52 + py) with ey by lia. }
      rewrite S. apply grid_round_ge; [apply two_power_pos|]. by rewrite <- S.
Qed.

Lemma nearest_double_opp x : (nearest_double (- x) == - nearest_double x)%Q.
Proof.
  unfold nearest_double. rewrite spacing_opp.
  assert (E : round_half_even (- x / spacing x) = - round_half_even (x / spacing x)).
  { rewrite <- round_half_even_opp.
    apply Z.le_antisymm; apply round_half_even_mono; apply Qle_lteq; right;
      unfold Qdiv; ring. }
  rewrite E, inject_Z_opp. ring.
Qed.

Lemma nearest_double_nonneg x : (0 <= x)%Q -> (0 <= nearest_double x)%Q.
Proof.
  intros H. unfold nearest_double.
  apply Qmult_le_0_compat; [|apply Qlt_le_weak, spacing_pos].
  change 0%Q with (inject_Z 0). rewrite <- Zle_Qle.
  assert (R : (inject_Z 0 <= x / spacing x)%Q).
  { apply Qle_shift_div_l; [apply spacing_pos|]. by rewrite Qmult_0_l. }
  apply round_half_even_mono in R. by rewrite round_half_even_Z in R.
Qed.

Lemma nearest_double_mono x y :
  (x <= y)%Q -> (nearest_double x <= nearest_double y)%Q.
Proof.
  intros Hxy.
  destruct (Qlt_le_dec 0 x) as [Hx|Hx]; [by apply nearest_double_mono_pos|].
  assert (Nx : (nearest_double x <= 0)%Q).
  { assert (H : (0 <= nearest_double (- x))%Q) by (apply nearest_double_nonneg; lra).
    rewrite nearest_double_opp in H. lra. }
  destruct (Qlt_le_dec y 0) as [Hy|Hy].
  - assert (H : (nearest_double (- y) <= nearest_double (- x))%Q)
      by (apply nearest_double_mono_pos; lra).
    rewrite !nearest_double_opp in H. lra.
  - pose proof (nearest_double_nonneg y Hy). lra.
Qed.

(** [round(x, 3)] is monotone, and 1.0 is one of its values. *)
Lemma round3_mono x y : (x <= y)%Q -> (round3 x <= round3 y)%Q.
Proof.
  intros H. unfold round3. apply nearest_double_mono.
  apply Qmult_le_compat_r; [|by vm_compute].
  rewrite <- Zle_Qle. apply round_half_even_mono, nearest_double_mono.
  apply Qmult_le_compat_r; [done|]. by vm_compute.
Qed.

Lemma round3_le_1 x : (x <= 1)%Q -> (round3 x <= 1)%Q.
Proof.
  intros H. apply round3_mono in H.
  eapply Qle_trans; [exact H|]. by vm_compute.
Qed.

End Rounding.

(** ** Sorting and discovery order *)

Section Ordering.

Lemma score_ge_trans p q s : score_ge p q -> score_ge q s -> score_ge p s.
Proof. unfold score_ge. intros H1 H2. by eapply Qle_trans. Qed.

Lemma insert_row_perm before p l : Permutation (insert_row before p l) (p :: l).
Proof.
  induction l as [|q l IH]; simpl; [done|].
  destruct (before p q); [done|].
  rewrite IH. apply perm_swap.
Qed.

Lemma sort_rows_perm before l : Permutation (sort_rows before l) l.
Proof.
  unfold sort_rows. induction l as [|p l IH]; simpl; [done|].
  rewrite insert_row_perm. by constructor.
Qed.

Section Insertion.

Variable before : similar_pair -> similar_pair -> bool.
Hypothesis before_true : forall p q, before p q = true -> score_ge p q.
Hypothesis before_false : forall p q, before p q = false -> score_ge q p.

Lemma insert_row_sorted p l :
  StronglySorted score_ge l -> StronglySorted score_ge (insert_row before p l).
Proof.
  induction l as [|q l IH]; simpl; intros Hs.
  - repeat constructor.
  - apply StronglySorted_inv in Hs as [Hs Hq].
    destruct (before p q) eqn:E.
    + constructor; [by constructor|].
      constructor; [by apply before_true|].
      eapply Forall_impl; [exact Hq|].
      intros s Hqs; simpl in Hqs. eapply score_ge_trans; [|exact Hqs].
      by apply before_true.
    + constructor; [by apply IH|].
      rewrite (insert_row_perm before p l).
      constructor; [by apply before_false | done].
Qed.

Lemma sort_rows_sorted l : StronglySorted score_ge (sort_rows before l).
Proof.
  unfold sort_rows. induction l as [|p l IH]; simpl; [constructor|].
  by apply insert_row_sorted.
Qed.

End Insertion.

Lemma sort_keeping_ties_descending : sorts_descending sort_keeping_ties.
Proof.
  intros l. split; [apply sort_rows_perm|].
  apply sort_rows_sorted; intros p q H; unfold score_ge.
  - by apply Qle_bool_iff.
  - apply Qlt_le_weak, Qnot_le_lt. intros Hle.
    apply Qle_bool_iff in Hle. congruence.
Qed.

(** The loops visit the index pairs [i < j < n] in lexicographic order. *)
Lemma index_pairs_bounds n i j : (i, j) ∈ index_pairs n -> (i < j < n)%nat.
Proof.
  unfold index_pairs. rewrite list_elem_of_In, in_flat_map.
  intros [i' [Hi Hj]]. apply in_map_iff in Hj as [j' [E Hj]].
  injection E as -> ->. apply in_seq in Hi, Hj. lia.
Qed.

Lemma index_row_sorted i m k :
  StronglySorted lex_lt (map (fun j => (i, j)) (seq k m)).
Proof.
  revert k. induction m as [|m IH]; intros k; simpl; constructor; [apply IH|].
  apply Forall_forall. intros [i' j'] Hin.
  apply list_elem_of_In, in_map_iff in Hin as [j [E Hj]].
  injection E as -> ->. apply in_seq in Hj. right. simpl. lia.
Qed.

Lemma index_rows_sorted n m k :
  StronglySorted lex_lt
    (flat_map (fun i => map (fun j => (i, j)) (seq (S i) (n - S i))) (seq k m)).
Proof.
  revert k. induction m as [|m IH]; intros k; simpl; [constructor|].
  apply StronglySorted_app_2; [|apply index_row_sorted|apply IH].
  intros [i1 j1] [i2 j2] H1 H2.
  apply list_elem_of_In, in_map_iff in H1 as [j [E _]]. injection E as -> ->.
  apply list_elem_of_In, in_flat_map in H2 as [i [Hi Hj]].
  apply in_map_iff in Hj as [j' [E _]]. injection E as -> ->.
  apply in_seq in Hi. left. simpl. lia.
Qed.

Lemma index_pairs_sorted n : StronglySorted lex_lt (index_pairs n).
Proof. apply index_rows_sorted. Qed.

Lemma StronglySorted_filter {A} (R : A -> A -> Prop) f l :
  StronglySorted R l -> StronglySorted R (List.filter f l).
Proof.
  induction 1 as [|x l Hs IH Hx]; simpl; [constructor|].
  destruct (f x); [|done]. constructor; [done|].
  apply Forall_forall. intros y Hy.
  apply list_elem_of_In, List.filter_In in Hy as [Hy _].
  rewrite Forall_forall in Hx. by apply Hx, list_elem_of_In.
Qed.

End Ordering.

(** ** The reported pairs *)

Section ReportedPairs.

Implicit Types (a : FYPAnalyzer) (df : list row) (sim : nat -> nat -> Q).

Lemma Qgtb_lt x y : Qgtb x y = true -> (y < x)%Q.
Proof.
  unfold Qgtb. intros H. apply negb_true_iff in H.
  apply Qnot_le_lt. intros Hle. apply Qle_bool_iff in Hle. congruence.
Qed.

Lemma similar_pairs_reported a sim df :
  Forall (reported_from a sim (length (project_ids df))) (similar_pairs a sim df).
Proof.
  apply Forall_forall. intros p Hp. unfold similar_pairs in Hp.
  apply list_elem_of_In, in_map_iff in Hp as [[i j] [<- Hin]].
  apply List.filter_In in Hin as [Hin Hthr].
  apply list_elem_of_In, index_pairs_bounds in Hin.
  exists i, j. repeat split; try lia. by apply Qgtb_lt.
Qed.

(** The result is empty, or it is the sorted list of the pairs found. *)
Lemma calculate_similarity_cases a cosine sort_values df :
  calculate_similarity a cosine sort_values df = [] \/
  exists sim,
    cosine (texts df) = Some sim /\
    (2 <= length (texts df))%nat /\
    calculate_similarity a cosine sort_values df = sort_values (similar_pairs a sim df).
Proof.
  unfold calculate_similarity.
  destruct (length (texts df) <? 2)%nat eqn:E; [by left|].
  apply Nat.ltb_ge in E.
  destruct (cosine (texts df)) as [sim|]; [|by left].
  destruct (similar_pairs a sim df) eqn:Ef; [by left|].
  right. exists sim. by rewrite Ef.
Qed.

(** [round3] follows numpy where exact rounding to three decimals would
    differ: the doubles written 0.3015, 0.7005 and 0.4445 are reported as
    0.302, 0.7 and 0.444. *)
Example round3_as_numpy :
  (round3 (2715670575304409 # 9007199254740992) == nearest_double (302 # 1000))%Q /\
  (round3 (6309543077946065 # 9007199254740992) == nearest_double (700 # 1000))%Q /\
  (round3 (4003700068732371 # 9007199254740992) == nearest_double (444 # 1000))%Q.
Proof. by vm_compute. Qed.

(** C3, as stated, fails twice on one frame: the pair with similarity
    0.7004 is reported with score 0.7 and level "Very High", where the
    boundaries applied to the reported 0.7 give "High"; the pair with
    similarity 0.3004 is retained and reported with score 0.3, which is not
    above the threshold 0.3. *)
Lemma reported_score_counterexample :
  let a := keyword_analyzer in
  let out := calculate_similarity a (fun _ => Some sim_edges) sort_keeping_ties four_rows in
  map similarity_score out =
    [round3 1; round3 (7004 # 10000); round3 (3004 # 10000)] /\
  (round3 1 == 1)%Q /\
  (round3 (7004 # 10000) == nearest_double (7 # 10))%Q /\
  (round3 (3004 # 10000) == nearest_double (3 # 10))%Q /\
  map similarity_level out = ["Very High"; "Very High"; "Medium"] /\
  map (fun p => level_of (similarity_score p)) out = ["Very High"; "High"; "Low"] /\
  Exists (fun p => similarity_level p <> level_of (similarity_score p)) out /\
  Exists (fun p => ~ (similarity_threshold a < similarity_score p)%Q) out.
Proof.
  intros a out.
  assert (E1 : map similarity_score out =
               [round3 1; round3 (7004 # 10000); round3 (3004 # 10000)])
    by (by vm_compute).
  assert (E2 : map similarity_level out = ["Very High"; "Very High"; "Medium"])
    by (by vm_compute).
  split; [exact E1|]. split; [by vm_compute|]. split; [by vm_compute|].
  split; [by vm_compute|]. split; [exact E2|]. split; [by vm_compute|]. split.
  - destruct out as [|p1 [|p2 [|p3 [|]]]]; try discriminate E1.
    injection E1 as _ S2 _. injection E2 as _ L2 _.
    apply Exists_cons_tl, Exists_cons_hd. rewrite L2, S2. by vm_compute.
  - destruct out as [|p1 [|p2 [|p3 [|]]]]; try discriminate E1.
    injection E1 as _ _ S3.
    apply Exists_cons_tl, Exists_cons_tl, Exists_cons_hd. rewrite S3.
    intros H. by vm_compute in H.
Qed.

(** C3 (amended): every reported pair comes from an index pair whose
    unrounded cosine value is strictly above the threshold (retention is
    decided before rounding); its level is given by the boundaries 0.7, 0.5
    and 0.3 applied to the unrounded value; its score is that value rounded
    to three decimals the way numpy rounds, which is at least the threshold
    rounded the same way and, when the cosine value is at most 1, at
    most 1. *)
Theorem reported_scores a cosine sort_values df :
  (forall l, Permutation (sort_values l) l) ->
  Forall
    (fun p =>
       exists sim i j,
         cosine (texts df) = Some sim /\
         (i < j < length (project_ids df))%nat /\
         (similarity_threshold a < sim i j)%Q /\
         similarity_level p = level_of (sim i j) /\
         similarity_score p = round3 (sim i j) /\
         (round3 (similarity_threshold a) <= similarity_score p)%Q /\
         ((sim i j <= 1)%Q -> (similarity_score p <= 1)%Q))
    (calculate_similarity a cosine sort_values df).
Proof.
  intros Hperm.
  destruct (calculate_similarity_cases a cosine sort_values df)
    as [-> | [sim [Hsim [_ ->]]]]; [constructor|].
  rewrite Hperm.
  eapply Forall_impl; [apply similar_pairs_reported|].
  intros p [i [j [Hij [Hthr [Hs Hl]]]]]; simpl.
  exists sim, i, j. rewrite Hs. repeat split; try done; try lia.
  - apply round3_mono. by apply Qlt_le_weak.
  - apply round3_le_1.
Qed.

Lemma matrix_le_1 s01 s02 s12 i j :
  (s01 <= 1)%Q -> (s02 <= 1)%Q -> (s12 <= 1)%Q -> (matrix s01 s02 s12 i j <= 1)%Q.
Proof.
  intros H1 H2 H3. unfold matrix.
  destruct (i =? j)%nat; [by vm_compute|].
  destruct (Nat.min i j) as [|[|?]], (Nat.max i j) as [|[|[|?]]]; try done.
Qed.

Lemma reported_scores_witness :
  Forall
    (fun p =>
       exists sim i j,
         Some sim_edges = Some sim /\
         (i < j < length (project_ids four_rows))%nat /\
         (similarity_threshold keyword_analyzer < sim i j)%Q /\
         similarity_level p = level_of (sim i j) /\
         similarity_score p = round3 (sim i j) /\
         (round3 (similarity_threshold keyword_analyzer) <= similarity_score p)%Q /\
         ((sim i j <= 1)%Q -> (similarity_score p <= 1)%Q))
    (calculate_similarity keyword_analyzer (fun _ => Some sim_edges)
       sort_keeping_ties four_rows).
Proof.
  apply (reported_scores keyword_analyzer (fun _ => Some sim_edges)
           sort_keeping_ties four_rows).
  apply sort_rows_perm.
Defined.

End ReportedPairs.

(** ** Overlapping domains *)

Section Overlap.

(** C5 at a frame where it fails: both records match 'Web Development'
    and 'Mobile Development' in the resolution pipeline, and the reported
    overlap holds 'Web Development' only, because [get_project_domains]
    returns at the first keyword hit. *)
Lemma overlapping_domains_first_hit_only :
  let a := keyword_analyzer in
  let out := calculate_similarity a (fun _ => Some sim_copies) sort_keeping_ties four_rows in
  map project_1_id out = ["P2"; "P1"; "P1"] /\
  map project_2_id out = ["P3"; "P2"; "P3"] /\
  dr_domains (categorize_row a shop_row) = ["Web Development"; "Mobile Development"] /\
  dr_domains (categorize_row a store_row) = ["Web Development"; "Mobile Development"] /\
  get_project_domains a "P1" four_rows = ["Web Development"] /\
  get_project_domains a "P2" four_rows = ["Web Development"] /\
  map overlapping_domains out =
    [{["Web Development"]}; {["Web Development"]}; {["Web Development"]}] /\
  resolved_overlap a shop_row store_row = {["Web Development"; "Mobile Development"]} /\
  "Mobile Development" ∈ resolved_overlap a shop_row store_row /\
  Forall (fun p => "Mobile Development" ∉ overlapping_domains p) out.
Proof.
  intros a out.
  assert (E : map overlapping_domains out =
    [{["Web Development"]}; {["Web Development"]}; {["Web Development"]}])
    by (vm_compute; reflexivity).
  assert (R : resolved_overlap a shop_row store_row
              = {["Web Development"; "Mobile Development"]}) by (vm_compute; reflexivity).
  split; [vm_compute; reflexivity|]. split; [vm_compute; reflexivity|].
  split; [vm_compute; reflexivity|]. split; [vm_compute; reflexivity|].
  split; [vm_compute; reflexivity|]. split; [vm_compute; reflexivity|].
  split; [exact E|]. split; [exact R|]. split.
  - rewrite R. clear. set_solver.
  - apply Forall_fmap with (f := overlapping_domains) (P := fun s => "Mobile Development" ∉ s).
    change (overlapping_domains <$> out) with (map overlapping_domains out).
    rewrite E. clear. repeat constructor; set_solver.
Qed.

End Overlap.

(** * Further properties of the code *)

(** ** [clean_text] *)

Section CleanText.

Lemma is_space_lower c : Text.is_space (Text.lower_ascii c) = Text.is_space c.
Proof. by destruct c as [[] [] [] [] [] [] [] []]. Qed.

Lemma lower_ascii_idem c : Text.lower_ascii (Text.lower_ascii c) = Text.lower_ascii c.
Proof. by destruct c as [[] [] [] [] [] [] [] []]. Qed.

Lemma lower_idem s : Text.lower (Text.lower s) = Text.lower s.
Proof. induction s as [|c s IH]; simpl; [done|]. by rewrite lower_ascii_idem, IH. Qed.

Lemma lower_lstrip s : Text.lower (Text.lstrip s) = Text.lstrip (Text.lower s).
Proof.
  induction s as [|c s IH]; simpl; [done|].
  rewrite is_space_lower. by destruct (Text.is_space c).
Qed.

Lemma lower_rstrip s : Text.lower (Text.rstrip s) = Text.rstrip (Text.lower s).
Proof.
  induction s as [|c s IH]; simpl; [done|].
  rewrite <- IH, is_space_lower.
  destruct (Text.rstrip s); simpl; [|done]. by destruct (Text.is_space c).
Qed.

Lemma lower_strip s : Text.lower (Text.strip s) = Text.strip (Text.lower s).
Proof. unfold Text.strip. by rewrite lower_rstrip, lower_lstrip. Qed.

Lemma lower_collapse_ws b s :
  Text.lower (Text.collapse_ws b s) = Text.collapse_ws b (Text.lower s).
Proof.
  revert b. induction s as [|c s IH]; intros b; simpl; [done|].
  rewrite is_space_lower.
  destruct (Text.is_space c), b; simpl; by rewrite IH.
Qed.

Lemma tidy_collapse_ws b s : tidy b (Text.collapse_ws b s) = true.
Proof.
  revert b. induction s as [|c s IH]; intros b; simpl; [done|].
  destruct (Text.is_space c) eqn:E.
  - destruct b; [apply IH|]. simpl. apply IH.
  - simpl. rewrite E. apply IH.
Qed.

Lemma collapse_ws_tidy b s : tidy b s = true -> Text.collapse_ws b s = s.
Proof.
  revert b. induction s as [|c s IH]; intros b; simpl; [done|].
  destruct (Text.is_space c).
  - intros [[Hc Hb%negb_true_iff]%andb_true_iff Ht]%andb_true_iff. subst b.
    apply Ascii.eqb_eq in Hc. subst c. by rewrite IH.
  - intros Ht. by rewrite IH.
Qed.

Lemma tidy_lstrip b b' s : tidy b s = true -> tidy b' (Text.lstrip s) = true.
Proof.
  revert b. induction s as [|c s IH]; intros b; simpl; [done|].
  destruct (Text.is_space c) eqn:E.
  - intros [_ Ht]%andb_true_iff. by apply (IH true).
  - intros Ht. simpl. by rewrite E.
Qed.

Lemma tidy_rstrip b s : tidy b s = true -> tidy b (Text.rstrip s) = true.
Proof.
  revert b. induction s as [|c s IH]; intros b; simpl; [done|].
  destruct (Text.is_space c) eqn:E.
  - intros [Hcb Ht]%andb_true_iff. apply IH in Ht.
    destruct (Text.rstrip s) as [|d r]; [done|].
    simpl in *. by rewrite E, Hcb, Ht.
  - intros Ht. apply IH in Ht.
    destruct (Text.rstrip s) as [|d r]; simpl in *; by rewrite E.
Qed.

Lemma rstrip_idem s : Text.rstrip (Text.rstrip s) = Text.rstrip s.
Proof.
  induction s as [|c s IH]; simpl; [done|].
  destruct (Text.rstrip s) as [|d r] eqn:E.
  - destruct (Text.is_space c) eqn:Ec; simpl; [done|]. by rewrite Ec.
  - change (Text.rstrip (String c (String d r))) with
      (match Text.rstrip (String d r) with
       | EmptyString => if Text.is_space c then EmptyString else String c EmptyString
       | q => String c q
       end).
    by rewrite IH.
Qed.

Lemma lstrip_rstrip_lstrip s :
  Text.lstrip (Text.rstrip (Text.lstrip s)) = Text.rstrip (Text.lstrip s).
Proof.
  induction s as [|c s IH]; [done|].
  cbn [Text.lstrip]. destruct (Text.is_space c) eqn:E; [exact IH|].
  cbn [Text.rstrip]. destruct (Text.rstrip s); rewrite ?E; cbn [Text.lstrip]; by rewrite E.
Qed.

Lemma strip_idem s : Text.strip (Text.strip s) = Text.strip s.
Proof. unfold Text.strip. by rewrite lstrip_rstrip_lstrip, rstrip_idem. Qed.

Lemma blank_collapse_ws b s : blank (Text.collapse_ws b s) = blank s.
Proof.
  revert b. induction s as [|c s IH]; intros b; simpl; [done|].
  destruct (Text.is_space c) eqn:E; simpl.
  - destruct b; simpl; by rewrite IH.
  - by rewrite E.
Qed.

Lemma truthy_lower s : Text.truthy (Text.lower s) = Text.truthy s.
Proof. by destruct s. Qed.

Lemma clean_text_fixed (text : option string) :
  Text.strip (clean_text text) = clean_text text /\
  Text.collapse_ws false (clean_text text) = clean_text text /\
  Text.lower (clean_text text) = clean_text text.
Proof.
  destruct text as [t|]; [|done]. simpl.
  split; [|split].
  - by rewrite <- lower_strip, strip_idem.
  - rewrite <- lower_collapse_ws. f_equal. apply collapse_ws_tidy.
    unfold Text.strip. apply tidy_rstrip, (tidy_lstrip false), tidy_collapse_ws.
  - apply lower_idem.
Qed.

(** Cleaning a cleaned text changes nothing. *)
Theorem clean_text_idempotent (text : option string) :
  clean_text (Some (clean_text text)) = clean_text text.
Proof.
  destruct (clean_text_fixed text) as [Hs [Hc Hl]].
  change (clean_text (Some (clean_text text))) with
    (Text.lower (Text.strip (Text.collapse_ws false (clean_text text)))).
  by rewrite Hc, Hs, Hl.
Qed.

Lemma clean_text_empty (text : option string) :
  clean_text text = EmptyString <-> blank (default EmptyString text) = true.
Proof.
  destruct text as [t|]; simpl; [|done].
  pose proof (truthy_strip (Text.collapse_ws false t)) as H.
  rewrite blank_collapse_ws, <- truthy_lower in H.
  destruct (Text.lower _), (blank t); simpl in H; split; congruence.
Qed.

Lemma blank_clean_text t : blank (clean_text (Some t)) = blank t.
Proof.
  destruct (blank t) eqn:E.
  - by apply (clean_text_empty (Some t)) in E as ->.
  - destruct (clean_text_fixed (Some t)) as [Hs _].
    pose proof (truthy_strip (clean_text (Some t))) as H. rewrite Hs in H.
    destruct (clean_text (Some t)) eqn:Ec; simpl in H.
    + apply (clean_text_empty (Some t)) in Ec. simpl in Ec. congruence.
    + by apply negb_true_iff.
Qed.

(** A row made by [load_data] enters the similarity universe exactly when
    its title or its scope holds a character that is not white space. *)
Theorem loaded_row_usable (short : string) (title scope existing : option string) :
  usable (load_row short title scope existing) =
  negb (blank (default EmptyString title) && blank (default EmptyString scope)).
Proof.
  rewrite usable_has_text. unfold has_text, load_row.
  cbn [cleaned_title cleaned_scope]. by rewrite !blank_clean_text.
Qed.

(** The output of [clean_text] has no leading or trailing white space, no
    white space other than single spaces between words, and no upper-case
    letter: each normalization step leaves it unchanged. *)
Theorem clean_text_normal_form (text : option string) :
  Text.strip (clean_text text) = clean_text text /\
  Text.collapse_ws false (clean_text text) = clean_text text /\
  Text.lower (clean_text text) = clean_text text.
Proof. apply clean_text_fixed. Qed.

(** The cleaned text is empty exactly for a cell that is absent or holds
    white space only. *)
Theorem clean_text_empty_iff (text : option string) :
  clean_text text = EmptyString <-> blank (default EmptyString text) = true.
Proof. apply clean_text_empty. Qed.

(** The no-break space U+00A0 and the next-line character U+0085 are white
    space: a title that holds nothing else is cleaned to the empty string,
    and its row does not enter the similarity universe. *)
Example no_break_space_is_blank :
  let title := String (ascii_of_nat 160) (String (ascii_of_nat 133) EmptyString) in
  clean_text (Some title) = EmptyString /\
  usable (load_row "P0" (Some title) None None) = false.
Proof. by vm_compute. Qed.

End CleanText.

(** ** The fenced payload *)

Section Payload.

Lemma prefix_nil s : String.prefix EmptyString s = true.
Proof. by destruct s. Qed.

Lemma prefix_cons a s b t :
  String.prefix (String a s) (String b t) =
  if ascii_dec a b then String.prefix s t else false.
Proof. done. Qed.

Lemma append_nil_l (t : string) : EmptyString +:+ t = t.
Proof. done. Qed.

Lemma append_cons c (s t : string) : String c s +:+ t = String c (s +:+ t).
Proof. done. Qed.

Lemma prefix_app_same s t : String.prefix s (s +:+ t) = true.
Proof.
  induction s as [|c s IH]; rewrite ?append_cons, ?append_nil_l; [apply prefix_nil|].
  rewrite prefix_cons. by destruct (ascii_dec c c).
Qed.

Lemma string_drop_app s t : string_drop (String.length s) (s +:+ t) = t.
Proof.
  induction s as [|c s IH]; rewrite ?append_cons, ?append_nil_l;
    cbn [String.length string_drop]; [by destruct t | done].
Qed.

Lemma append_assoc (s t u : string) : (s +:+ t) +:+ u = s +:+ (t +:+ u).
Proof. induction s as [|c s IH]; rewrite ?append_cons, ?append_nil_l; [done|]. by rewrite IH. Qed.

Lemma append_nil_r (s : string) : s +:+ EmptyString = s.
Proof. induction s as [|c s IH]; rewrite ?append_cons, ?append_nil_l; [done|]. by rewrite IH. Qed.

Lemma contains_cut sep s :
  Text.contains sep s = match cut sep s with Some _ => true | None => false end.
Proof.
  induction s as [|c s IH]; cbn [Text.contains cut].
  - by destruct (String.prefix sep "").
  - destruct (String.prefix sep (String c s)); [done|].
    rewrite IH. cbn [orb]. by destruct (cut sep s) as [[x y]|].
Qed.

(** The guards [sep in text] make the indexing [split(sep)[1]] safe: the
    slicing never raises. *)
Theorem payload_text_never_raises (text : string) : is_Some (payload_text text).
Proof.
  unfold payload_text, split_item1. cbv zeta.
  rewrite !contains_cut.
  destruct (cut json_fence (Text.strip text)) as [[x y]|]; [done|].
  by destruct (cut plain_fence (Text.strip text)) as [[x y]|].
Qed.

Lemma prefix_tick_no_backtick sep s :
  no_backtick s = true -> String.prefix (String "`" sep) s = false.
Proof.
  destruct s as [|c s]; [done|]. cbn [no_backtick]. rewrite prefix_cons.
  intros [Hc _]%andb_true_iff. apply negb_true_iff, Ascii.eqb_neq in Hc.
  destruct (ascii_dec "`" c); [congruence | done].
Qed.

(** Scanning for a fence passes over text without backticks. *)
Lemma cut_skip sep a w :
  no_backtick a = true ->
  cut (String "`" sep) (a +:+ w) =
  match cut (String "`" sep) w with
  | Some (x, y) => Some (a +:+ x, y)
  | None => None
  end.
Proof.
  induction a as [|c a IH]; intros Ha; rewrite ?append_cons, ?append_nil_l.
  - by destruct (cut _ w) as [[x y]|].
  - cbn [cut]. cbn [no_backtick] in Ha. apply andb_true_iff in Ha as [Hc Ha].
    rewrite prefix_cons.
    apply negb_true_iff, Ascii.eqb_neq in Hc.
    destruct (ascii_dec "`" c); [congruence|].
    rewrite IH by done. by destruct (cut _ w) as [[x y]|].
Qed.

Lemma cut_no_backtick sep s :
  no_backtick s = true -> cut (String "`" sep) s = None.
Proof.
  induction s as [|c s IH]; intros Hs; [done|].
  cbn [cut]. rewrite prefix_tick_no_backtick by done.
  cbn [no_backtick] in Hs. apply andb_true_iff in Hs as [_ Hs]. by rewrite IH.
Qed.

Lemma cut_here sep w : cut sep (sep +:+ w) = Some (EmptyString, w).
Proof.
  pose proof (prefix_app_same sep w) as Hp.
  pose proof (string_drop_app sep w) as Hd.
  destruct (sep +:+ w) eqn:Ew; cbn [cut]; by rewrite Hp, Hd.
Qed.

Lemma cut_at_fence sep a w :
  no_backtick a = true ->
  cut (String "`" sep) (a +:+ String "`" sep +:+ w) = Some (a, w).
Proof.
  intros Ha. rewrite cut_skip by done. rewrite cut_here.
  by rewrite append_nil_r.
Qed.

Lemma lstrip_app_nonspace a c w :
  Text.is_space c = false ->
  Text.lstrip (a +:+ String c w) = Text.lstrip a +:+ String c w.
Proof.
  intros Hc. induction a as [|d a IH]; rewrite ?append_cons, ?append_nil_l;
    cbn [Text.lstrip]; [by rewrite Hc|].
  by destruct (Text.is_space d).
Qed.

Lemma rstrip_nonspace c s :
  Text.is_space c = false -> Text.rstrip (String c s) = String c (Text.rstrip s).
Proof. intros Hc. cbn [Text.rstrip]. rewrite Hc. by destruct (Text.rstrip s). Qed.

Lemma rstrip_app_nonspace a c w :
  Text.is_space c = false ->
  Text.rstrip (a +:+ String c w) = a +:+ String c (Text.rstrip w).
Proof.
  intros Hc. induction a as [|d a IH]; rewrite ?append_cons, ?append_nil_l.
  - by apply rstrip_nonspace.
  - cbn [Text.rstrip]. rewrite IH. by destruct a.
Qed.

Lemma no_backtick_lstrip s : no_backtick s = true -> no_backtick (Text.lstrip s) = true.
Proof.
  induction s as [|c s IH]; cbn [no_backtick Text.lstrip]; [done|].
  intros [Hc Hs]%andb_true_iff. destruct (Text.is_space c); [by apply IH|].
  cbn [no_backtick]. by rewrite Hc, Hs.
Qed.

Lemma no_backtick_rstrip s : no_backtick s = true -> no_backtick (Text.rstrip s) = true.
Proof.
  induction s as [|c s IH]; cbn [no_backtick Text.rstrip]; [done|].
  intros [Hc Hs]%andb_true_iff. apply IH in Hs.
  destruct (Text.rstrip s); cbn [no_backtick] in *.
  - destruct (Text.is_space c); cbn [no_backtick]; [done|]. by rewrite Hc.
  - by rewrite Hc, Hs.
Qed.

Lemma strip_sandwich a c m d b :
  Text.is_space c = false -> Text.is_space d = false ->
  Text.strip (a +:+ String c (m +:+ String d b)) =
  Text.lstrip a +:+ String c (m +:+ String d (Text.rstrip b)).
Proof.
  intros Hc Hd. unfold Text.strip. rewrite lstrip_app_nonspace by done.
  rewrite <- append_cons, <- append_assoc.
  rewrite rstrip_app_nonspace by done.
  by rewrite append_assoc, append_cons.
Qed.

(** Behind a closing fence that is followed by text without backticks, the
    next json fence can only start at the closing fence itself. *)
Lemma cut_json_behind_close r :
  no_backtick r = true ->
  cut json_fence (plain_fence +:+ r) =
  if String.prefix "json" r then Some (EmptyString, string_drop 4 r) else None.
Proof.
  intros Hr.
  change (plain_fence +:+ r) with (String "`" (String "`" (String "`" r))).
  change json_fence with (String "`" (String "`" (String "`" "json"))).
  cbn [cut]. rewrite !prefix_cons.
  destruct (ascii_dec "`" "`"); [|congruence].
  destruct (String.prefix "json" r); [reflexivity|].
  rewrite !(prefix_tick_no_backtick _ r Hr).
  rewrite (cut_no_backtick _ r Hr). reflexivity.
Qed.

Lemma split_item0_no_backtick sep s :
  no_backtick s = true -> split_item0 (String "`" sep) s = s.
Proof. intros Hs. unfold split_item0. by rewrite cut_no_backtick. Qed.

Lemma split_item0_at_fence sep a w :
  no_backtick a = true -> split_item0 (String "`" sep) (a +:+ String "`" sep +:+ w) = a.
Proof. intros Ha. unfold split_item0. by rewrite cut_at_fence. Qed.

(** A response that holds one block fenced with the json tag yields the
    inside of the block, stripped, whatever text surrounds the block. *)
Theorem payload_json_fence (pre body post : string) :
  no_backtick pre = true -> no_backtick body = true -> no_backtick post = true ->
  payload_text (pre +:+ json_fence +:+ body +:+ plain_fence +:+ post)
    = Some (Text.strip body).
Proof.
  intros Hpre Hbody Hpost. unfold payload_text. cbv zeta.
  assert (E : Text.strip (pre +:+ json_fence +:+ body +:+ plain_fence +:+ post) =
              Text.lstrip pre +:+ json_fence +:+ body +:+ plain_fence +:+ Text.rstrip post).
  { transitivity
      (Text.strip (pre +:+ String "`" (("``json" +:+ body +:+ "``") +:+ String "`" post))).
    - f_equal. f_equal. rewrite !append_assoc. reflexivity.
    - rewrite strip_sandwich by done. f_equal. rewrite !append_assoc. reflexivity. }
  rewrite E. clear E.
  apply no_backtick_lstrip in Hpre. apply no_backtick_rstrip in Hpost.
  set (p := Text.lstrip pre) in *. set (r := Text.rstrip post) in *.
  assert (C : cut json_fence (p +:+ json_fence +:+ body +:+ plain_fence +:+ r) =
              Some (p, body +:+ plain_fence +:+ r)) by (by apply cut_at_fence).
  rewrite contains_cut. unfold split_item1. rewrite C.
  f_equal. f_equal.
  unfold split_item0 at 2.
  change json_fence with (String "`" "``json") at 1.
  rewrite cut_skip by done. rewrite cut_json_behind_close by done.
  destruct (String.prefix "json" r).
  - rewrite append_nil_r. by apply split_item0_no_backtick.
  - by apply split_item0_at_fence.
Qed.

(** A response without any backtick is handed to the parser as it is,
    stripped. *)
Theorem payload_unfenced (text : string) :
  no_backtick text = true -> payload_text text = Some (Text.strip text).
Proof.
  intros H. unfold payload_text. cbv zeta.
  assert (Hs : no_backtick (Text.strip text) = true)
    by (by apply no_backtick_rstrip, no_backtick_lstrip).
  rewrite !contains_cut.
  change json_fence with (String "`" "``json").
  change plain_fence with (String "`" "``").
  by rewrite !cut_no_backtick.
Qed.

Lemma payload_json_fence_witness :
  payload_text "Result: ```json {} ``` done" = Some "{}".
Proof.
  apply (payload_json_fence "Result: " " {} " " done"); reflexivity.
Defined.

Lemma payload_unfenced_witness : payload_text " {} " = Some "{}".
Proof. apply (payload_unfenced " {} "). reflexivity. Defined.

Lemma prefix_json_tick_j b s :
  String.prefix json_fence s = true -> tick_j_free b s = false.
Proof.
  change json_fence with (String "`" (String "`" (String "`" (String "j" "son")))).
  destruct s as [|c1 [|c2 [|c3 [|c4 s]]]]; try done;
    rewrite ?prefix_cons;
    repeat (destruct (ascii_dec _ _); [subst|done]); try done.
  intros _. cbn [tick_j_free]. by destruct b.
Qed.

Lemma cut_tick_j_free b s : tick_j_free b s = true -> cut json_fence s = None.
Proof.
  revert b. induction s as [|c s IH]; intros b H; [done|].
  cbn [cut].
  destruct (String.prefix json_fence (String c s)) eqn:Hp.
  - apply (prefix_json_tick_j b) in Hp. congruence.
  - cbn [tick_j_free] in H. apply andb_true_iff in H as [_ H].
    by rewrite (IH _ H).
Qed.

Lemma tick_j_free_skip a w :
  no_backtick a = true -> tick_j_free false (a +:+ w) = tick_j_free false w.
Proof.
  induction a as [|c a IH]; intros Ha; rewrite ?append_cons, ?append_nil_l; [done|].
  cbn [no_backtick] in Ha. apply andb_true_iff in Ha as [Hc Ha].
  cbn [tick_j_free]. apply negb_true_iff in Hc. rewrite Hc. by apply IH.
Qed.

Lemma tick_j_free_behind_tick a w :
  no_backtick a = true -> String.prefix "j" a = false ->
  tick_j_free true (a +:+ w) =
  match a with
  | EmptyString => tick_j_free true w
  | _ => tick_j_free false w
  end.
Proof.
  destruct a as [|c a]; intros Ha Hj; rewrite ?append_cons, ?append_nil_l; [done|].
  cbn [no_backtick] in Ha. apply andb_true_iff in Ha as [Hc Ha].
  cbn [tick_j_free]. apply negb_true_iff in Hc. rewrite Hc.
  rewrite prefix_cons in Hj.
  assert (Hcj : Ascii.eqb c "j" = false).
  { apply Ascii.eqb_neq. intros ->.
    destruct (ascii_dec "j" "j"); [|done]. by rewrite prefix_nil in Hj. }
  rewrite Hcj. by apply tick_j_free_skip.
Qed.

Lemma tick_j_free_fence b w :
  tick_j_free b (plain_fence +:+ w) = tick_j_free true w.
Proof.
  change (plain_fence +:+ w) with (String "`" (String "`" (String "`" w))).
  cbn [tick_j_free]. by destruct b.
Qed.

Lemma prefix_j_rstrip s :
  String.prefix "j" s = false -> String.prefix "j" (Text.rstrip s) = false.
Proof.
  destruct s as [|c s]; [done|]. cbn [Text.rstrip].
  rewrite prefix_cons. intros H.
  destruct (Text.rstrip s); [destruct (Text.is_space c); [done|] |];
    rewrite prefix_cons; destruct (ascii_dec "j" c); try done;
    by rewrite prefix_nil in *.
Qed.

(** A response that holds one block fenced without a tag yields the inside
    of the block, stripped, provided neither the block nor the text behind
    it starts with the letter j (which would make a json fence). *)
Theorem payload_plain_fence (pre body post : string) :
  no_backtick pre = true -> no_backtick body = true -> no_backtick post = true ->
  String.prefix "j" body = false -> String.prefix "j" post = false ->
  payload_text (pre +:+ plain_fence +:+ body +:+ plain_fence +:+ post)
    = Some (Text.strip body).
Proof.
  intros Hpre Hbody Hpost Hjb Hjp. unfold payload_text. cbv zeta.
  assert (E : Text.strip (pre +:+ plain_fence +:+ body +:+ plain_fence +:+ post) =
              Text.lstrip pre +:+ plain_fence +:+ body +:+ plain_fence +:+ Text.rstrip post).
  { transitivity
      (Text.strip (pre +:+ String "`" (("``" +:+ body +:+ "``") +:+ String "`" post))).
    - f_equal. f_equal. rewrite !append_assoc. reflexivity.
    - rewrite strip_sandwich by done. f_equal. rewrite !append_assoc. reflexivity. }
  rewrite E. clear E.
  apply no_backtick_lstrip in Hpre. apply no_backtick_rstrip in Hpost.
  apply prefix_j_rstrip in Hjp.
  set (p := Text.lstrip pre) in *. set (r := Text.rstrip post) in *.
  assert (J : cut json_fence (p +:+ plain_fence +:+ body +:+ plain_fence +:+ r) = None).
  { apply (cut_tick_j_free false).
    rewrite tick_j_free_skip, tick_j_free_fence by done.
    rewrite tick_j_free_behind_tick by done.
    assert (R : tick_j_free true r = true).
    { rewrite <- (append_nil_r r). rewrite tick_j_free_behind_tick by done.
      by destruct r. }
    destruct body; by rewrite tick_j_free_fence. }
  assert (C : cut plain_fence (p +:+ plain_fence +:+ body +:+ plain_fence +:+ r) =
              Some (p, body +:+ plain_fence +:+ r)) by (by apply cut_at_fence).
  rewrite !contains_cut. unfold split_item1. rewrite J, C.
  f_equal. f_equal. by apply split_item0_at_fence.
Qed.

Lemma payload_plain_fence_witness :
  payload_text "Result: ``` {} ``` done" = Some "{}".
Proof.
  apply (payload_plain_fence "Result: " " {} " " done"); reflexivity.
Defined.

End Payload.

(** ** What [categorize_by_domain] records *)

Section Scores.

Implicit Types (st : resolution) (g : gemini_result) (r : row) (a : FYPAnalyzer).

Lemma count_nonneg text k : 0 <= Text.count text k.
Proof. apply TextFacts.count_from_nonneg. Qed.

Lemma evidence_le_score text kws :
  Z.of_nat (length (evidence_keywords text kws)) <= domain_score text kws.
Proof.
  unfold evidence_keywords, domain_score.
  induction kws as [|k kws IH]; simpl; [lia|].
  pose proof (count_nonneg text (Text.lower k)).
  destruct (0 <? Text.count text (Text.lower k)) eqn:E; simpl length; [|lia].
  apply Z.ltb_lt in E. lia.
Qed.

Lemma evidence_nonempty text kws :
  0 < domain_score text kws -> evidence_keywords text kws <> [].
Proof.
  unfold evidence_keywords, domain_score.
  induction kws as [|k kws IH]; simpl; [lia|].
  pose proof (count_nonneg text (Text.lower k)).
  destruct (0 <? Text.count text (Text.lower k)) eqn:E; [done|].
  apply Z.ltb_ge in E. intros Hs. apply IH. lia.
Qed.

Lemma well_scored_gemini_domains g st :
  map_Forall (fun _ e => well_scored e) st.2 ->
  map_Forall (fun _ e => well_scored e) (gemini_domains g st).2.
Proof.
  unfold gemini_domains. revert st.
  induction (domains g) as [|info l IH]; simpl; intros st H; [done|].
  apply IH. destruct (retained info) eqn:E; [|done]. simpl.
  apply map_Forall_insert_2; [|done].
  left. unfold retained in E. apply andb_true_iff in E as [_ E].
  apply Z.leb_le in E. split_and!; [done|done|by eexists].
Qed.

Lemma well_scored_ai_step g : map_Forall (fun _ e => well_scored e) (ai_step g).2.
Proof.
  unfold ai_step, gemini_primary.
  pose proof (well_scored_gemini_domains g no_domains (map_Forall_empty _)) as H.
  case_match; [|done]. simpl. apply map_Forall_insert_2; [|done].
  left. split_and!; [done|done|by eexists].
Qed.

Lemma well_scored_keyword_domains tax text st :
  map_Forall (fun _ e => well_scored e) st.2 ->
  map_Forall (fun _ e => well_scored e) (keyword_domains tax text st).2.
Proof.
  unfold keyword_domains. revert st.
  induction tax as [|[d kws] tax IH]; simpl; intros st H; [done|].
  apply IH. rewrite keyword_tally_spec. simpl.
  destruct (0 <? domain_score text kws) eqn:E; [|done]. simpl.
  apply Z.ltb_lt in E.
  apply map_Forall_insert_2; [|done].
  right; left. split; [done|]. exists (evidence_keywords text kws).
  split_and!; [done | by apply evidence_nonempty | apply evidence_le_score].
Qed.

(** On every resolution path, each entry of [confidence_scores] has the
    score and evidence of its method: an AI entry a score of at least 6 and
    a reasoning text, a keyword entry at least one evidence keyword and a
    score of at least their number, the existing-label and default entries
    the score 1. *)
Theorem recorded_entries_well_scored a r :
  map_Forall (fun _ e => well_scored e) (confidence_scores (categorize_row a r)).
Proof.
  simpl. rewrite resolve_by_step.
  destruct (producing_step a r); simpl.
  - destruct (consult_gemini a r); [apply well_scored_ai_step | apply map_Forall_empty].
  - apply well_scored_keyword_domains, map_Forall_empty.
  - destruct (existing_domain r); [|apply map_Forall_empty].
    apply map_Forall_singleton. right; right; left. done.
  - apply map_Forall_singleton. right; right; right. done.
Qed.

(** The primary domain reported for a record is its first matched domain,
    and it has an entry in [confidence_scores]. *)
Theorem primary_domain_is_first a r :
  head (dr_domains (categorize_row a r)) = Some (dr_primary_domain (categorize_row a r)) /\
  is_Some (confidence_scores (categorize_row a r) !! dr_primary_domain (categorize_row a r)).
Proof.
  pose proof (matched_domains_nonempty a r) as Hne.
  pose proof (keyed_resolve a r) as Hk. unfold keyed in Hk.
  simpl in *. destruct (resolve a r) as [md cs]; simpl in *.
  destruct md as [|d md]; [done|]. simpl. split; [done|].
  apply elem_of_dom. rewrite Hk. apply elem_of_list_to_set. by left.
Qed.

(** Without a usable model (no key, an empty key, the package missing, or
    the model not created) every record is categorized by the fallback
    steps: the record-level tag is 'keyword_matching' and no entry is tagged
    'gemini_ai'. *)
Theorem keyword_only_without_model key env r :
  (key = None \/ key = Some EmptyString \/ GEMINI_AVAILABLE env = false \/
   exists k, key = Some k /\ make_model env k = None) ->
  categorization_method (categorize_row (init key env) r) = "keyword_matching" /\
  map_Forall (fun _ e => method e <> "gemini_ai")
    (confidence_scores (categorize_row (init key env) r)).
Proof.
  intros H.
  assert (Hm : gemini_model (init key env) = None).
  { simpl. destruct H as [-> | [-> | [H | [k [-> H]]]]]; try done.
    - destruct key as [k|]; [|done]. rewrite H. by rewrite andb_false_r.
    - rewrite H. by destruct (_ && _)%bool. }
  assert (Hc : consult_gemini (init key env) r = None).
  { unfold consult_gemini. by rewrite Hm. }
  split.
  - cbn [categorization_method categorize_row]. by rewrite Hc.
  - intros d e Hd.
    pose proof (tagged_step_result (init key env) r (producing_step (init key env) r)) as T.
    rewrite <- resolve_by_step in T. apply T in Hd. rewrite Hd.
    unfold producing_step. rewrite Hc.
    destruct (keyword_result _ r).1, (existing_domain r) as [x|];
      try done; by destruct (Text.truthy (Text.strip x)).
Qed.

Lemma keyword_only_without_model_witness :
  categorization_method (categorize_row (init (Some "key") env_no_genai) shop_row)
    = "keyword_matching" /\
  map_Forall (fun _ e => method e <> "gemini_ai")
    (confidence_scores (categorize_row (init (Some "key") env_no_genai) shop_row)).
Proof.
  apply (keyword_only_without_model (Some "key") env_no_genai shop_row).
  right. right. left. reflexivity.
Defined.

End Scores.

(** ** Keyword matching and the single-domain helper *)

Section KeywordHelper.

Implicit Types (r : row) (a : FYPAnalyzer).

Lemma count_pos_contains text k : (0 <? Text.count text k) = Text.contains k text.
Proof.
  destruct (TextFacts.count_bounds text k) as [_ H].
  pose proof (TextFacts.contains_occurrences k text) as C.
  destruct (Text.contains k text).
  - apply Z.ltb_lt, H, C. done.
  - apply Z.ltb_ge. destruct (Z.lt_ge_cases 0 (Text.count text k)) as [Hlt|Hge]; [|lia].
    apply H, C in Hlt. done.
Qed.

(** A domain scores exactly when one of its keywords occurs in the text. *)
Lemma scoring_existsb text d kws :
  scoring text (d, kws) = existsb (fun k => Text.contains (Text.lower k) text) kws.
Proof.
  unfold scoring, domain_score. simpl.
  induction kws as [|k kws IH]; simpl; [done|].
  rewrite <- IH, <- count_pos_contains.
  pose proof (count_nonneg text (Text.lower k)) as Hc.
  pose proof (domain_score_nonneg text kws) as Hs. unfold domain_score in Hs.
  destruct (0 <? Text.count text (Text.lower k)) eqn:E1; simpl.
  - apply Z.ltb_lt in E1. apply Z.ltb_lt. lia.
  - apply Z.ltb_ge in E1.
    replace (Text.count text (Text.lower k)) with 0 by lia. done.
Qed.

Lemma first_keyword_domain_head (tax : taxonomy) text :
  first_keyword_domain tax text = [hd "Other" (map fst (List.filter (scoring text) tax))].
Proof.
  induction tax as [|[d kws] tax IH]; simpl; [done|].
  rewrite scoring_existsb.
  by destruct (existsb _ kws).
Qed.

(** For a record whose cleaned text is the lower-cased raw text (title and
    scope hold no surplus white space), the single domain that
    [get_project_domains] returns is the first domain of the keyword step of
    [categorize_by_domain], or 'Other' when that step matches nothing. *)
Theorem helper_returns_first_keyword_domain a df pid r :
  find (fun r => String.eqb (short_title r) pid) df = Some r ->
  cleaned_text r = combined_lower (project_title r) (project_scope r) ->
  get_project_domains a pid df = [hd "Other" (keyword_result a r).1].
Proof.
  intros Hf Hc. unfold get_project_domains. rewrite Hf.
  rewrite first_keyword_domain_head, Hc.
  unfold keyword_result. by rewrite keyword_domains_fst.
Qed.

Lemma helper_returns_first_keyword_domain_witness :
  get_project_domains keyword_analyzer "P1" four_rows
    = [hd "Other" (keyword_result keyword_analyzer shop_row).1].
Proof.
  apply (helper_returns_first_keyword_domain keyword_analyzer four_rows "P1" shop_row);
    reflexivity.
Defined.

Lemma prefix_app_mono sub s t :
  String.prefix sub s = true -> String.prefix sub (s +:+ t) = true.
Proof.
  revert sub. induction s as [|c s IH]; intros [|b sub]; try done.
  - intros _. apply prefix_nil.
  - rewrite append_cons, !prefix_cons. destruct (ascii_dec b c); [apply IH|done].
Qed.

Lemma contains_app_mono sub s t :
  Text.contains sub s = true -> Text.contains sub (s +:+ t) = true.
Proof.
  induction s as [|c s IH]; cbn [Text.contains].
  - rewrite orb_false_r. intros H. apply (prefix_app_mono _ _ t) in H.
    rewrite append_nil_l in *. destruct t; cbn [Text.contains]; by rewrite H.
  - rewrite append_cons. cbn [Text.contains].
    intros [H|H]%orb_true_iff.
    + apply (prefix_app_mono _ _ t) in H. rewrite append_cons in H. by rewrite H.
    + rewrite IH by done. apply orb_true_r.
Qed.

Lemma lower_app s t : Text.lower (s +:+ t) = Text.lower s +:+ Text.lower t.
Proof.
  induction s as [|c s IH]; rewrite ?append_cons, ?append_nil_l; [done|].
  cbn [Text.lower]. by rewrite IH, append_cons.
Qed.

Lemma sublist_filter_impl {A} (f g : A -> bool) (l : list A) :
  (forall x, f x = true -> g x = true) ->
  sublist (List.filter f l) (List.filter g l).
Proof.
  intros H. induction l as [|x l IH]; simpl; [constructor|].
  destruct (f x) eqn:E.
  - rewrite (H x E). by constructor.
  - destruct (g x); [by constructor | done].
Qed.

(** Text added at the end of the scope never removes a domain from the
    result of the keyword step: the domains matched before are matched
    after, in the same order. *)
Theorem keyword_domains_grow (tax : taxonomy) (title scope extra : string) :
  sublist (keyword_domains tax (combined_lower title scope) no_domains).1
          (keyword_domains tax (combined_lower title (scope +:+ extra)) no_domains).1.
Proof.
  rewrite !keyword_domains_fst. simpl.
  apply (fmap_sublist fst), sublist_filter_impl.
  intros [d kws]. rewrite !scoring_existsb, !existsb_exists.
  intros [k [Hin Hk]]. exists k. split; [done|].
  assert (E : combined_lower title (scope +:+ extra) =
              combined_lower title scope +:+ Text.lower extra).
  { unfold combined_lower. by rewrite lower_app, !append_assoc. }
  rewrite E. by apply contains_app_mono.
Qed.

End KeywordHelper.

(** ** More on [calculate_similarity] *)

Section SimilarityMore.

Implicit Types (a : FYPAnalyzer) (df : list row) (sim : nat -> nat -> Q).

Lemma index_rows_length n m k :
  (k + m <= n)%nat ->
  (2 * length (flat_map (fun i => map (fun j => (i, j)) (seq (S i) (n - S i))) (seq k m))
   = m * (2 * n - 2 * k - m - 1))%nat.
Proof.
  revert k. induction m as [|m IH]; intros k Hk; simpl; [lia|].
  rewrite length_app, length_map, length_seq.
  specialize (IH (S k)). nia.
Qed.

Lemma index_pairs_length n : (2 * length (index_pairs n) = n * (n - 1))%nat.
Proof. unfold index_pairs. rewrite index_rows_length by lia. nia. Qed.

Lemma filter_length_le {A} (f : A -> bool) l : (length (List.filter f l) <= length l)%nat.
Proof. induction l as [|x l IH]; simpl; [lia|]. destruct (f x); simpl; lia. Qed.

Lemma project_ids_length df : length (project_ids df) = length (List.filter has_text df).
Proof. unfold project_ids. by rewrite length_map, filter_usable. Qed.

(** With [n] records that have text, at most [n (n - 1) / 2] pairs are
    reported, and every pair joins two different positions [i < j] of the
    list of project ids: no record is paired with itself, and the first
    project of a pair comes earlier in the input. *)
Theorem pairs_bounded a cosine sort_values df :
  (forall l, Permutation (sort_values l) l) ->
  let n := length (List.filter has_text df) in
  (2 * length (calculate_similarity a cosine sort_values df) <= n * (n - 1))%nat /\
  Forall
    (fun p => exists i j,
       (i < j < n)%nat /\
       project_1_id p = nth i (project_ids df) "" /\
       project_2_id p = nth j (project_ids df) "")
    (calculate_similarity a cosine sort_values df).
Proof.
  intros Hperm n.
  destruct (calculate_similarity_cases a cosine sort_values df)
    as [-> | [sim [_ [_ ->]]]]; [split; [apply Nat.le_0_l | constructor]|].
  rewrite Hperm. unfold similar_pairs. rewrite project_ids_length. fold n. split.
  - rewrite length_map.
    pose proof (filter_length_le (above_threshold a sim) (index_pairs n)).
    pose proof (index_pairs_length n). lia.
  - apply Forall_fmap, Forall_forall. intros [i j] Hin.
    apply list_elem_of_In, List.filter_In in Hin as [Hin _].
    apply list_elem_of_In, index_pairs_bounds in Hin.
    exists i, j. by split.
Qed.

Lemma pairs_bounded_witness :
  let out :=
    calculate_similarity keyword_analyzer (fun _ => Some sim_copies)
      sort_keeping_ties four_rows in
  (2 * length out <= 4 * (4 - 1))%nat /\
  Forall
    (fun p => exists i j,
       (i < j < 4)%nat /\
       project_1_id p = nth i (project_ids four_rows) "" /\
       project_2_id p = nth j (project_ids four_rows) "")
    out.
Proof.
  apply (pairs_bounded keyword_analyzer (fun _ => Some sim_copies)
           sort_keeping_ties four_rows).
  apply sort_rows_perm.
Defined.

Lemma first_keyword_domain_length (tax : taxonomy) text :
  length (first_keyword_domain tax text) = 1%nat.
Proof.
  induction tax as [|[d kws] tax IH]; simpl; [done|]. by destruct (existsb _ kws).
Qed.

Lemma get_project_domains_length a pid df :
  (length (get_project_domains a pid df) <= 1)%nat.
Proof.
  unfold get_project_domains. destruct (find _ df); simpl; [|lia].
  by rewrite first_keyword_domain_length.
Qed.

Lemma size_list_to_set_le (l : list string) :
  (size (list_to_set l : gset string) <= length l)%nat.
Proof.
  induction l as [|x l IH].
  - rewrite list_to_set_nil, size_empty. simpl. lia.
  - rewrite list_to_set_cons. cbn [length].
    rewrite size_union_alt, size_singleton.
    assert (Hs : list_to_set l ∖ {[x]} ⊆ (list_to_set l : gset string)).
    { intros y Hy. by apply elem_of_difference in Hy as [? _]. }
    apply subseteq_size in Hs. lia.
Qed.

(** The reported overlap never holds more than one domain, because
    [get_project_domains] returns at most one domain per project. *)
Theorem overlap_at_most_one a cosine sort_values df :
  (forall l, Permutation (sort_values l) l) ->
  Forall (fun p => (size (overlapping_domains p) <= 1)%nat)
    (calculate_similarity a cosine sort_values df).
Proof.
  intros Hperm.
  destruct (calculate_similarity_cases a cosine sort_values df)
    as [-> | [sim [_ [_ ->]]]]; [constructor|].
  rewrite Hperm. unfold similar_pairs. apply Forall_fmap, Forall_forall.
  intros ij _. simpl.
  etrans; [apply subseteq_size, intersection_subseteq_l|].
  etrans; [apply size_list_to_set_le|]. apply get_project_domains_length.
Qed.

Lemma overlap_at_most_one_witness :
  Forall (fun p => (size (overlapping_domains p) <= 1)%nat)
    (calculate_similarity keyword_analyzer (fun _ => Some sim_copies)
       sort_keeping_ties four_rows).
Proof.
  apply (overlap_at_most_one keyword_analyzer (fun _ => Some sim_copies)
           sort_keeping_ties four_rows).
  apply sort_rows_perm.
Defined.

Lemma Qgtb_mono_threshold x t1 t2 :
  (t1 <= t2)%Q -> Qgtb x t2 = true -> Qgtb x t1 = true.
Proof.
  unfold Qgtb. intros Ht H. apply negb_true_iff in H. apply negb_true_iff.
  destruct (Qle_bool x t1) eqn:E; [|done].
  apply Qle_bool_iff in E.
  assert (Hle : (x <= t2)%Q) by (by eapply Qle_trans).
  apply Qle_bool_iff in Hle. congruence.
Qed.

(** Raising the threshold only removes pairs: what is reported at the
    higher threshold is, up to order, part of what is reported at the lower
    one. *)
Theorem raising_threshold_removes_pairs a cosine sort_values df (t1 t2 : Q) :
  (t1 <= t2)%Q ->
  (forall l, Permutation (sort_values l) l) ->
  calculate_similarity (set_similarity_threshold t2 a) cosine sort_values df
  ⊆+ calculate_similarity (set_similarity_threshold t1 a) cosine sort_values df.
Proof.
  intros Ht Hperm.
  assert (Hsub : forall sim,
    sublist (similar_pairs (set_similarity_threshold t2 a) sim df)
            (similar_pairs (set_similarity_threshold t1 a) sim df)).
  { intros sim. unfold similar_pairs.
    apply (fmap_sublist (make_pair (set_similarity_threshold t1 a) df sim)).
    apply sublist_filter_impl. intros ij. unfold above_threshold; simpl.
    by apply Qgtb_mono_threshold. }
  unfold calculate_similarity.
  destruct (length (texts df) <? 2)%nat; [done|].
  destruct (cosine (texts df)) as [sim|]; [|done].
  specialize (Hsub sim). apply sublist_submseteq in Hsub.
  destruct (similar_pairs (set_similarity_threshold t2 a) sim df) eqn:E2;
    [apply submseteq_nil_l|].
  destruct (similar_pairs (set_similarity_threshold t1 a) sim df) eqn:E1.
  - apply submseteq_nil_r in Hsub. done.
  - by rewrite !Hperm.
Qed.

Lemma raising_threshold_removes_pairs_witness :
  calculate_similarity (set_similarity_threshold (1 # 2) keyword_analyzer)
    (fun _ => Some sim_copies) sort_keeping_ties four_rows
  ⊆+ calculate_similarity (set_similarity_threshold (1 # 4) keyword_analyzer)
    (fun _ => Some sim_copies) sort_keeping_ties four_rows.
Proof.
  apply (raising_threshold_removes_pairs keyword_analyzer (fun _ => Some sim_copies)
           sort_keeping_ties four_rows (1 # 4) (1 # 2)).
  - by vm_compute.
  - apply sort_rows_perm.
Defined.

(** With a threshold of 1 or more nothing is reported, for cosine values of
    at most 1: the configuration is accepted and silently yields the empty
    result. *)
Theorem threshold_one_reports_nothing a cosine sort_values df :
  (1 <= similarity_threshold a)%Q ->
  (forall sim i j, cosine (texts df) = Some sim -> (sim i j <= 1)%Q) ->
  calculate_similarity a cosine sort_values df = [].
Proof.
  intros Ht Hone. unfold calculate_similarity.
  destruct (length (texts df) <? 2)%nat; [done|].
  destruct (cosine (texts df)) as [sim|] eqn:Ec; [|done].
  assert (E : similar_pairs a sim df = []).
  { unfold similar_pairs.
    assert (F : List.filter (above_threshold a sim) (index_pairs (length (project_ids df))) = []).
    { induction (index_pairs _) as [|ij l IH]; simpl; [done|].
      assert (Hf : above_threshold a sim ij = false).
      { unfold above_threshold, Qgtb. apply negb_false_iff, Qle_bool_iff.
        eapply Qle_trans; [by apply Hone | done]. }
      by rewrite Hf. }
    by rewrite F. }
  by rewrite E.
Qed.

Lemma threshold_one_reports_nothing_witness :
  calculate_similarity (set_similarity_threshold (3 # 2) keyword_analyzer)
    (fun _ => Some sim_copies) sort_keeping_ties four_rows = [].
Proof.
  apply (threshold_one_reports_nothing (set_similarity_threshold (3 # 2) keyword_analyzer)
           (fun _ => Some sim_copies) sort_keeping_ties four_rows).
  - by vm_compute.
  - intros sim i j E. injection E as <-. apply matrix_le_1; by vm_compute.
Defined.

End SimilarityMore.

(** ** Similarity levels and the workbook sheets *)

Section Levels.

Implicit Types (a : FYPAnalyzer) (df : list row) (sim : nat -> nat -> Q).

Lemma Qgtb_mono x y c : (x <= y)%Q -> Qgtb x c = true -> Qgtb y c = true.
Proof.
  unfold Qgtb. intros Hxy H. apply negb_true_iff in H. apply negb_true_iff.
  destruct (Qle_bool y c) eqn:E; [|done].
  apply Qle_bool_iff in E.
  assert (Hle : (x <= c)%Q) by (by eapply Qle_trans).
  apply Qle_bool_iff in Hle. congruence.
Qed.

(** The level is monotone in the score: a higher similarity never gets a
    lower level. *)
Theorem level_monotone (x y : Q) :
  (x <= y)%Q -> (level_rank (level_of x) <= level_rank (level_of y))%nat.
Proof.
  intros Hxy. unfold level_of.
  pose proof (Qgtb_mono x y (7 # 10) Hxy) as H7.
  pose proof (Qgtb_mono x y (5 # 10) Hxy) as H5.
  pose proof (Qgtb_mono x y (3 # 10) Hxy) as H3.
  destruct (Qgtb x (7 # 10)); [by rewrite H7|].
  destruct (Qgtb x (5 # 10)).
  { rewrite H5 by done. destruct (Qgtb y (7 # 10)); vm_compute; lia. }
  destruct (Qgtb x (3 # 10)).
  { rewrite H3 by done. destruct (Qgtb y (7 # 10)), (Qgtb y (5 # 10)); vm_compute; lia. }
  change (level_rank "Low") with 0%nat. lia.
Qed.

Lemma level_monotone_witness :
  (level_rank (level_of (4336 # 10000)) <= level_rank (level_of 1))%nat.
Proof. apply (level_monotone (4336 # 10000) 1). by vm_compute. Defined.

Lemma level_of_cases s : level_of s ∈ similarity_levels.
Proof.
  unfold level_of, similarity_levels.
  destruct (Qgtb s (7 # 10)); [by left|].
  destruct (Qgtb s (5 # 10)); [by right; left|].
  destruct (Qgtb s (3 # 10)); [by right; right; left | by right; right; right; left].
Qed.

Lemma level_of_not_low s : Qgtb s (3 # 10) = true -> level_of s <> "Low".
Proof.
  intros H. unfold level_of. rewrite H.
  by destruct (Qgtb s (7 # 10)), (Qgtb s (5 # 10)).
Qed.

(** With a threshold of 0.3 or more, as by default, no reported pair has
    the level "Low". *)
Theorem no_low_level a cosine sort_values df :
  (3 # 10 <= similarity_threshold a)%Q ->
  (forall l, Permutation (sort_values l) l) ->
  Forall (fun p => similarity_level p <> "Low")
    (calculate_similarity a cosine sort_values df).
Proof.
  intros Ht Hperm.
  destruct (calculate_similarity_cases a cosine sort_values df)
    as [-> | [sim [_ [_ ->]]]]; [constructor|].
  rewrite Hperm.
  eapply Forall_impl; [apply similar_pairs_reported|].
  intros p [i [j [_ [Hthr [_ ->]]]]]. apply level_of_not_low.
  unfold Qgtb. apply negb_true_iff.
  destruct (Qle_bool (sim i j) (3 # 10)) eqn:E; [|done].
  apply Qle_bool_iff in E. exfalso.
  apply (Qlt_irrefl (sim i j)).
  eapply Qle_lt_trans; [exact E|]. by eapply Qle_lt_trans.
Qed.

Lemma no_low_level_witness :
  Forall (fun p => similarity_level p <> "Low")
    (calculate_similarity keyword_analyzer (fun _ => Some sim_edges)
       sort_keeping_ties four_rows).
Proof.
  apply (no_low_level keyword_analyzer (fun _ => Some sim_edges)
           sort_keeping_ties four_rows).
  - by vm_compute.
  - apply sort_rows_perm.
Defined.

Lemma sheet_rows (name : string) (rows : list similar_pair) :
  concat (map snd (match rows with [] => [] | p :: l => [(name, p :: l)] end)) = rows.
Proof. destruct rows; simpl; [done|]. by rewrite app_nil_r. Qed.

Lemma level_sheets_rows (l : list similar_pair) :
  concat (map snd (level_sheets l)) =
  List.filter (fun p => String.eqb (similarity_level p) "Very High") l ++
  List.filter (fun p => String.eqb (similarity_level p) "High") l ++
  List.filter (fun p => String.eqb (similarity_level p) "Medium") l ++
  List.filter (fun p => String.eqb (similarity_level p) "Low") l.
Proof.
  unfold level_sheets, similarity_levels. cbn [flat_map].
  rewrite !map_app, !concat_app, !sheet_rows. simpl. by rewrite app_nil_r.
Qed.

Lemma level_filters_partition (l : list similar_pair) :
  Forall (fun p => similarity_level p ∈ similarity_levels) l ->
  Permutation
    (List.filter (fun p => String.eqb (similarity_level p) "Very High") l ++
     List.filter (fun p => String.eqb (similarity_level p) "High") l ++
     List.filter (fun p => String.eqb (similarity_level p) "Medium") l ++
     List.filter (fun p => String.eqb (similarity_level p) "Low") l) l.
Proof.
  induction 1 as [|p l Hp Hl IH]; [done|].
  unfold similarity_levels in Hp. cbn [List.filter].
  repeat (apply elem_of_cons in Hp as [Hp|Hp]); [..|by apply elem_of_nil in Hp];
    rewrite Hp; cbn [String.eqb Ascii.eqb Bool.eqb andb].
  - simpl. by constructor.
  - rewrite <- app_comm_cons, <- Permutation_middle. by constructor.
  - rewrite app_assoc, <- app_comm_cons, <- Permutation_middle, <- app_assoc.
    by constructor.
  - rewrite !app_assoc, <- Permutation_middle, <- !app_assoc. by constructor.
Qed.

Lemma level_sheet_names (l : list similar_pair) : NoDup (map fst (level_sheets l)).
Proof.
  unfold level_sheets, similarity_levels. cbn [flat_map].
  destruct (List.filter _ l), (List.filter _ l), (List.filter _ l), (List.filter _ l);
    simpl; apply (bool_decide_unpack _); by vm_compute.
Qed.

(** The sheets by level hold every reported pair exactly once: their rows,
    put together, are a rearrangement of the main sheet, and no two sheets
    have the same name. *)
Theorem level_sheets_partition a cosine sort_values df :
  (forall l, Permutation (sort_values l) l) ->
  Permutation
    (concat (map snd (level_sheets (calculate_similarity a cosine sort_values df))))
    (calculate_similarity a cosine sort_values df) /\
  NoDup (map fst (level_sheets (calculate_similarity a cosine sort_values df))).
Proof.
  intros Hperm. split; [|apply level_sheet_names].
  rewrite level_sheets_rows. apply level_filters_partition.
  destruct (calculate_similarity_cases a cosine sort_values df)
    as [-> | [sim [_ [_ ->]]]]; [constructor|].
  rewrite Hperm.
  eapply Forall_impl; [apply similar_pairs_reported|].
  intros p [i [j [_ [_ [_ ->]]]]]. apply level_of_cases.
Qed.

Lemma level_sheets_partition_witness :
  let out :=
    calculate_similarity keyword_analyzer (fun _ => Some sim_edges)
      sort_keeping_ties four_rows in
  Permutation (concat (map snd (level_sheets out))) out /\
  NoDup (map fst (level_sheets out)).
Proof.
  apply (level_sheets_partition keyword_analyzer (fun _ => Some sim_edges)
           sort_keeping_ties four_rows).
  apply sort_rows_perm.
Defined.

Lemma string_take_length n s : (String.length (string_take n s) <= n)%nat.
Proof.
  revert s. induction n as [|n IH]; intros [|c s]; simpl; try lia.
  specialize (IH s). lia.
Qed.

Lemma string_take_take n s : string_take n (string_take n s) = string_take n s.
Proof.
  revert s. induction n as [|n IH]; intros [|c s]; simpl; try done.
  by rewrite IH.
Qed.

Lemma string_forall_filter f s : string_forall f (string_filter f s) = true.
Proof.
  induction s as [|c s IH]; simpl; [done|].
  destruct (f c) eqn:E; simpl; [by rewrite E|done].
Qed.

Lemma string_forall_take f n s :
  string_forall f s = true -> string_forall f (string_take n s) = true.
Proof.
  revert s. induction n as [|n IH]; intros [|c s]; simpl; try done.
  intros [Hc Hs]%andb_true_iff. rewrite Hc. by apply IH.
Qed.

Lemma string_filter_forall f s : string_forall f s = true -> string_filter f s = s.
Proof.
  induction s as [|c s IH]; simpl; [done|].
  intros [Hc Hs]%andb_true_iff. by rewrite Hc, IH.
Qed.

(** The sheet name made of a domain name has at most 31 characters, all of
    them letters, digits, underscores, white space or hyphens, and a name
    of that form is left unchanged. *)
Theorem sheet_name_safe (domain : string) :
  (String.length (sheet_name domain) <= 31)%nat /\
  string_forall sheet_char (sheet_name domain) = true /\
  sheet_name (sheet_name domain) = sheet_name domain.
Proof.
  unfold sheet_name. split; [apply string_take_length|].
  assert (H : string_forall sheet_char (string_take 31 (string_filter sheet_char domain)) = true)
    by apply string_forall_take, string_forall_filter.
  split; [done|].
  by rewrite (string_filter_forall _ _ H), string_take_take.
Qed.

End Levels.

(** ** The explanation of a pair *)

Section Explanation.

Lemma band_clause_level s : band_clause s = band_of_level (level_of s).
Proof.
  unfold band_clause, level_of.
  destruct (Qgtb s (7 # 10)); [done|].
  destruct (Qgtb s (5 # 10)); [done|].
  by destruct (Qgtb s (3 # 10)).
Qed.

Lemma join_snoc sep l x :
  join sep (l ++ [x]) =
  match l with
  | [] => x
  | _ => join sep l +:+ sep +:+ x
  end.
Proof.
  induction l as [|y l IH]; [done|].
  change ((y :: l) ++ [x]) with (y :: (l ++ [x])).
  destruct l as [|z l]; [done|].
  change (join sep (y :: (z :: l) ++ [x])) with (y +:+ sep +:+ join sep ((z :: l) ++ [x])).
  rewrite IH.
  change (join sep (y :: z :: l)) with (y +:+ sep +:+ join sep (z :: l)).
  by rewrite !append_assoc.
Qed.

(** The explanation always ends with the sentence that goes with the level
    reported for the same score, followed by a full stop; at most two
    sentences come before it. *)
Theorem explanation_closing (iter : set_order) (s : Q) (overlapping : gset string)
    (text1 text2 : string) :
  exists front,
    (length front <= 2)%nat /\
    explanation_parts iter s overlapping text1 text2
      = front ++ [band_of_level (level_of s)] /\
    generate_similarity_explanation iter s overlapping text1 text2
      = match front with
        | [] => EmptyString
        | _ => join ". " front +:+ ". "
        end +:+ band_of_level (level_of s) +:+ ".".
Proof.
  unfold generate_similarity_explanation, explanation_parts.
  rewrite band_clause_level.
  set (d := if bool_decide (overlapping = ∅) then [] else _).
  set (c := match meaningful_common iter text1 text2 with [] => [] | _ => _ end).
  exists (d ++ c). split; [|split].
  - assert (Hd : (length d <= 1)%nat) by (unfold d; case_match; simpl; lia).
    assert (Hc : (length c <= 1)%nat).
    { unfold c. destruct (meaningful_common _ _ _); [simpl; lia|].
      destruct (5 <? _)%nat; simpl; lia. }
    rewrite length_app. lia.
  - by rewrite app_assoc.
  - rewrite app_assoc, join_snoc.
    destruct (d ++ c); [done|]. by rewrite !append_assoc.
Qed.

(** The concepts the explanation names are at most three different words,
    each of more than three characters, none of them a stop word, and each
    a word of both texts, whatever the order in which the set of common
    words is iterated. *)
Theorem named_concepts (iter : set_order) (text1 text2 : string) :
  (forall X, iter X ≡ₚ elements X) ->
  let named := firstn 3 (meaningful_common iter text1 text2) in
  (length named <= 3)%nat /\
  NoDup named /\
  Forall
    (fun w =>
       w ∈ words text1 /\ w ∈ words text2 /\
       (3 < String.length w)%nat /\ w ∉ common_stop_words)
    named.
Proof.
  intros Hiter named.
  set (common := list_to_set (words text1) ∩ list_to_set (words text2) : gset string).
  assert (Hsub : sublist named (iter common)).
  { unfold named, meaningful_common. fold common.
    etrans; [apply sublist_take|]. clear.
    induction (iter common) as [|x l IH]; simpl; [done|].
    destruct (meaningful x); by constructor. }
  split; [unfold named; rewrite length_take; lia|]. split.
  - eapply sublist_NoDup; [|exact Hsub]. rewrite Hiter. apply NoDup_elements.
  - apply Forall_forall. intros w Hw.
    assert (Hm : meaningful w = true).
    { unfold named, meaningful_common in Hw. apply elem_of_take in Hw as [i [Hw _]].
      apply list_elem_of_lookup_2, list_elem_of_In, List.filter_In in Hw. tauto. }
    assert (Hc : w ∈ common).
    { apply elem_of_elements. rewrite <- Hiter. by eapply elem_of_sublist. }
    unfold common in Hc. apply elem_of_intersection in Hc as [H1 H2].
    apply elem_of_list_to_set in H1, H2.
    unfold meaningful in Hm. apply andb_true_iff in Hm as [Hl Hs].
    apply Nat.ltb_lt in Hl. apply negb_true_iff, bool_decide_eq_false in Hs. done.
Qed.

Lemma named_concepts_witness :
  let named := firstn 3 (meaningful_common elements "smart home sensor" "home sensor grid") in
  (length named <= 3)%nat /\
  NoDup named /\
  Forall
    (fun w =>
       w ∈ words "smart home sensor" /\ w ∈ words "home sensor grid" /\
       (3 < String.length w)%nat /\ w ∉ common_stop_words)
    named.
Proof.
  apply (named_concepts elements "smart home sensor" "home sensor grid").
  intros X. reflexivity.
Defined.

End Explanation.

(** ** Rounding error of the reported score *)

Section ReportedScore.

Implicit Types (a : FYPAnalyzer) (df : list row) (sim : nat -> nat -> Q).

Lemma round_half_even_close x :
  (inject_Z (round_half_even x) - (1 # 2) <= x <= inject_Z (round_half_even x) + (1 # 2))%Q.
Proof.
  unfold round_half_even.
  pose proof (Qfloor_le x) as Hlo. pose proof (Qlt_floor x) as Hhi.
  rewrite inject_Z_plus in Hhi. change (inject_Z 1) with 1%Q in Hhi.
  destruct (Qcompare_spec (x - inject_Z (Qfloor x)) (1 # 2)) as [H|H|H].
  - destruct (Z.even (Qfloor x)); rewrite ?inject_Z_plus;
      change (inject_Z 1) with 1%Q; split; lra.
  - split; lra.
  - rewrite inject_Z_plus. change (inject_Z 1) with 1%Q. split; lra.
Qed.

(** A double is at most half a spacing away from the number it rounds. *)
Lemma nearest_double_close x :
  (x - spacing x * (1 # 2) <= nearest_double x <= x + spacing x * (1 # 2))%Q.
Proof.
  unfold nearest_double.
  pose proof (spacing_pos x) as Hs.
  pose proof (round_half_even_close (x / spacing x)) as [H1 H2].
  set (m := inject_Z (round_half_even (x / spacing x))) in *.
  set (s := spacing x) in *.
  assert (E : (x / s * s == x)%Q).
  { unfold Qdiv. rewrite <- Qmult_assoc, (Qmult_comm (/ s)), Qmult_inv_r; [ring|].
    intros H. rewrite H in Hs. by apply Qlt_irrefl in Hs. }
  apply (Qmult_le_compat_r _ _ s) in H1; [|by apply Qlt_le_weak].
  apply (Qmult_le_compat_r _ _ s) in H2; [|by apply Qlt_le_weak].
  rewrite E in H1, H2.
  assert (D1 : ((m - (1 # 2)) * s == m * s - s * (1 # 2))%Q) by ring.
  assert (D2 : ((m + (1 # 2)) * s == m * s + s * (1 # 2))%Q) by ring.
  rewrite D1 in H1. rewrite D2 in H2.
  set (ms := (m * s)%Q) in *. split; lra.
Qed.

Lemma ilog2_lt y k : (0 <= y)%Q -> (y < 2 ^ k)%Q -> 1 <= k -> ilog2 y < k.
Proof.
  intros H0 Hy Hk. destruct (Qlt_le_dec 0 y) as [Hpos|Hle].
  - destruct (ilog2_spec y Hpos) as [H1 _].
    apply two_power_lt_inv. by eapply Qle_lt_trans.
  - assert (Hn : Qnum y = 0).
    { destruct y as [n d]. unfold Qle in *; simpl in *. lia. }
    unfold ilog2. rewrite Hn. change (Z.log2 0) with 0.
    pose proof (Z.log2_nonneg (Z.pos (Qden y))).
    destruct (Qle_bool _ _); lia.
Qed.

Lemma spacing_le x k :
  (Qabs x < 2 ^ k)%Q -> 1 <= k -> (spacing x <= 2 ^ (k - 53))%Q.
Proof.
  intros Hx Hk. unfold spacing. apply two_power_le.
  pose proof (ilog2_lt (Qabs x) k (Qabs_nonneg x) Hx Hk). lia.
Qed.

(** For a value between 0 and 1, [round(x, 3)] is within 0.0005 of [x], up
    to the rounding of the product and of the quotient. *)
Lemma round3_close x :
  (0 <= x <= 1)%Q ->
  (x - (1 # 2000) - 2 ^ (-52) <= round3 x <= x + (1 # 2000) + 2 ^ (-52))%Q.
Proof.
  intros [H0 H1]. unfold round3.
  set (z := (x * inject_Z 1000)%Q).
  assert (Hz : (0 <= z <= 1000)%Q).
  { unfold z. change (inject_Z 1000) with (1000 # 1)%Q. split; lra. }
  (* the product *)
  assert (Sz : (spacing z <= 2 ^ (10 - 53))%Q).
  { apply spacing_le; [|lia]. rewrite Qabs_pos by apply Hz.
    eapply Qle_lt_trans; [apply Hz|]. by vm_compute. }
  pose proof (nearest_double_close z) as [Z1 Z2].
  set (fz := nearest_double z) in *.
  (* the nearest integer *)
  pose proof (round_half_even_close fz) as [K1 K2].
  assert (Kb : 0 <= round_half_even fz <= 1000).
  { split.
    - change 0 with (round_half_even (nearest_double 0)).
      apply round_half_even_mono, nearest_double_mono, Hz.
    - change 1000 with (round_half_even (nearest_double 1000)).
      apply round_half_even_mono, nearest_double_mono, Hz. }
  set (k := round_half_even fz) in *.
  assert (Kq : (0 <= inject_Z k <= 1000)%Q).
  { split; [change 0%Q with (inject_Z 0) | change 1000%Q with (inject_Z 1000)];
      rewrite <- Zle_Qle; lia. }
  (* the quotient *)
  set (w := (inject_Z k / inject_Z 1000)%Q).
  assert (Ew : (w == inject_Z k * (1 # 1000))%Q) by (unfold w; field).
  assert (Sw : (spacing w <= 2 ^ (1 - 53))%Q).
  { apply spacing_le; [|lia]. rewrite Qabs_pos by (rewrite Ew; lra).
    rewrite Ew. apply Qle_lt_trans with 1%Q; [lra|by vm_compute]. }
  pose proof (nearest_double_close w) as [W1 W2].
  set (fw := nearest_double w) in *.
  assert (P43 : (2 ^ (10 - 53) == 1 # 8796093022208)%Q) by reflexivity.
  assert (P52 : (2 ^ (1 - 53) == 1 # 4503599627370496)%Q) by reflexivity.
  assert (Q52 : (2 ^ (-52) == 1 # 4503599627370496)%Q) by reflexivity.
  rewrite P43 in Sz. rewrite P52 in Sw. rewrite Q52.
  set (sz := spacing z) in *. set (sw := spacing w) in *.
  set (ik := inject_Z k) in *.
  assert (Ez : (z == 1000 * x)%Q).
  { unfold z. change (inject_Z 1000) with (1000 # 1)%Q. ring. }
  rewrite Ez in Z1, Z2. rewrite Ew in W1, W2.
  split; lra.
Qed.

(** For every reported pair whose cosine value lies between 0 and 1, the
    reported score is within 0.0005 of the cosine value, up to the error
    [2 ^ -52] of the two floating-point roundings, and above the threshold
    minus that much. *)
Theorem reported_score_close a cosine sort_values df :
  (forall l, Permutation (sort_values l) l) ->
  Forall
    (fun p =>
       exists sim i j,
         cosine (texts df) = Some sim /\
         (i < j < length (project_ids df))%nat /\
         similarity_score p = round3 (sim i j) /\
         ((0 <= sim i j <= 1)%Q ->
          (sim i j - (1 # 2000) - 2 ^ (-52) <= similarity_score p
             <= sim i j + (1 # 2000) + 2 ^ (-52))%Q /\
          (similarity_threshold a - (1 # 2000) - 2 ^ (-52) < similarity_score p)%Q))
    (calculate_similarity a cosine sort_values df).
Proof.
  intros Hperm.
  destruct (calculate_similarity_cases a cosine sort_values df)
    as [-> | [sim [Hsim [_ ->]]]]; [constructor|].
  rewrite Hperm.
  eapply Forall_impl; [apply similar_pairs_reported|].
  intros p [i [j [Hij [Hthr [-> _]]]]]. exists sim, i, j.
  split; [done|]. split; [done|]. split; [done|]. intros Hb.
  pose proof (round3_close (sim i j) Hb) as [H1 H2].
  split; [by split|].
  eapply Qlt_le_trans; [|exact H1].
  set (e := (2 ^ (-52))%Q). lra.
Qed.

Lemma reported_score_close_witness :
  Forall
    (fun p =>
       exists sim i j,
         Some sim_edges = Some sim /\
         (i < j < length (project_ids four_rows))%nat /\
         similarity_score p = round3 (sim i j) /\
         ((0 <= sim i j <= 1)%Q ->
          (sim i j - (1 # 2000) - 2 ^ (-52) <= similarity_score p
             <= sim i j + (1 # 2000) + 2 ^ (-52))%Q /\
          (similarity_threshold keyword_analyzer - (1 # 2000) - 2 ^ (-52)
             < similarity_score p)%Q))
    (calculate_similarity keyword_analyzer (fun _ => Some sim_edges)
       sort_keeping_ties four_rows).
Proof.
  apply (reported_score_close keyword_analyzer (fun _ => Some sim_edges)
           sort_keeping_ties four_rows).
  apply sort_rows_perm.
Defined.

End ReportedScore.
